(** * AudioSourceSDFAT: the SD card audio source of the player

    A shallow embedding of [src/AudioTools/Disk/AudioSourceSDFAT.h].

    The class owns one SdFat volume object ([sd]), one file object ([file]),
    a lazy file enumerator ([idx]) and the current position ([idx_pos]).
    Member functions are state transformers on [Sys], the pair of the
    object and of the world it talks to (the card, the number of handles
    held on it, and the chronological trace of driver calls and log
    lines). *)

From Stdlib Require Import ZArith List String Ascii Bool Lia.
Import ListNotations.
Local Open Scope string_scope.
Local Open Scope list_scope.
Local Open Scope Z_scope.

(** ** Machine integers

    The target is the ESP32: [int] is a 32 bit two's complement integer
    and [size_t] is a 32 bit unsigned integer.  Values are carried as [Z]
    and every conversion is written out. *)
Module CInt.

Definition WIDTH : Z := 32.
Definition modulus : Z := 2 ^ WIDTH.
Definition half : Z := 2 ^ (WIDTH - 1).
Definition INT_MAX : Z := half - 1.
Definition INT_MIN : Z := - half.

(** conversion to the unsigned type: reduction modulo [2^32] *)
Definition to_size_t (z : Z) : Z := z mod modulus.

(** conversion to [int]: the value congruent modulo [2^32] in the
    signed range *)
Definition to_int (z : Z) : Z := (z + half) mod modulus - half.

Definition int_range (z : Z) : Prop := INT_MIN <= z <= INT_MAX.
Definition size_range (z : Z) : Prop := 0 <= z < modulus.

(** [a + b] where [a] is a [size_t] and [b] an [int]: the usual
    arithmetic conversions turn [b] into a [size_t] and the sum wraps *)
Definition size_plus_int (a b : Z) : Z := to_size_t (a + to_size_t b).

End CInt.

(** ** C strings

    A [const char*] is [None] for [nullptr] and [Some s] otherwise.  A
    [char] array is the list of its cells. *)
Definition cstr : Type := option string.

Definition NUL : ascii := Ascii.zero.

(** [strncpy(dest, src, n)]: the first [n] cells of [dest] receive the
    characters of [src], padded with NUL when [src] is shorter; no
    terminator is written when [src] has [n] characters or more.  The
    cells of [dest] after the first [n] are kept. *)
Fixpoint strncpy_cells (src : string) (n : nat) : list ascii :=
  match n with
  | O => []
  | S n' =>
      match src with
      | EmptyString => NUL :: strncpy_cells EmptyString n'
      | String c rest => c :: strncpy_cells rest n'
      end
  end.

Definition strncpy (dest : list ascii) (src : string) (n : nat) : list ascii :=
  strncpy_cells src n ++ skipn n dest.

(** Reading a [char] array as a C string: the characters before the first
    NUL.  [None] when the array holds no NUL (the read would run past the
    array). *)
Fixpoint c_str (cells : list ascii) : option string :=
  match cells with
  | [] => None
  | c :: rest =>
      if Ascii.eqb c NUL then Some EmptyString
      else option_map (String c) (c_str rest)
  end.

(** ** The collaborators *)

(** [SdSpiConfig(csPin, opt, maxSck)] of the SdFat library *)
Record SdSpiConfig : Type := mkSdSpiConfig {
  csPin : Z;
  options : Z;
  maxSck : Z
}.

(** [AudioFs]: the SdFat volume object; all this class observes of it is
    whether it is mounted. *)
Record AudioFs : Type := mkAudioFs {
  mounted : bool
}.

(** [AudioFile]: a file object; it holds a handle on a path or is closed. *)
Record AudioFile : Type := mkAudioFile {
  opened : option string
}.

Definition isOpen (f : AudioFile) : bool :=
  match opened f with Some _ => true | None => false end.

(** Modelled from the spec: [SDDirect] (AudioTools/Disk/SDDirect.h) is not
    part of the sources at hand.  The enumerator is "configured" by
    [begin(root, extension, pattern)] and then answers position queries
    by walking the tree on demand, holding no listing of its own; its
    state is therefore the filter it was given. *)
Record SDDirect : Type := mkSDDirect {
  idx_configured : bool;
  idx_root : cstr;
  idx_ext : cstr;
  idx_pattern : cstr
}.

Definition SDDirect_new : SDDirect :=
  {| idx_configured := false; idx_root := None; idx_ext := None;
     idx_pattern := None |}.

(** The card as the driver sees it: which configurations mount, which
    paths open for reading, and what the enumerator finds at a position
    ([None] is the null pointer of "not found"). *)
Record Card : Type := mkCard {
  mountable : SdSpiConfig -> bool;
  openable : string -> bool;
  path_at : SDDirect -> Z -> cstr;
  file_count : SDDirect -> Z
}.

(** ** Trace *)

Inductive Level : Type := LvlDebug | LvlInfo | LvlWarning | LvlError.

Inductive LogArg : Type :=
| ArgInt (z : Z)
| ArgStr (s : cstr).

Inductive Event : Type :=
| EvLog (lvl : Level) (fmt : string) (args : list LogArg)
| EvTrace (lvl : Level)
| EvNewCfg (cfg : SdSpiConfig)
| EvDeleteCfg
| EvSdBegin (cfg : SdSpiConfig) (ok : bool)
| EvSdEnd
| EvIdxBegin (root ext pattern : cstr)
| EvIdxAt (pos : Z) (found : cstr)
| EvFileClose
| EvFileOpen (path : string) (ok : bool).

Definition is_file_open_event (e : Event) : bool :=
  match e with EvFileOpen _ _ => true | _ => false end.

Definition is_file_close_event (e : Event) : bool :=
  match e with EvFileClose => true | _ => false end.

Definition is_sd_end_event (e : Event) : bool :=
  match e with EvSdEnd => true | _ => false end.

Definition is_idx_begin_event (e : Event) : bool :=
  match e with EvIdxBegin _ _ _ => true | _ => false end.

Definition is_error_log (e : Event) : bool :=
  match e with EvLog LvlError _ _ => true | _ => false end.

(** ** The world and the object *)

Record World : Type := mkWorld {
  card : Card;
  handles : nat;          (* file handles currently held on the card *)
  trace : list Event      (* oldest first *)
}.

Definition fresh_world (c : Card) : World :=
  {| card := c; handles := 0; trace := [] |}.

(** The data members of the class, in the order of their declaration.
    The member [cs] is declared but never read nor written and is left
    out. *)
Record AudioSourceSDFAT : Type := mkAudioSourceSDFAT {
  p_cfg : option SdSpiConfig;
  sd : AudioFs;
  file : AudioFile;
  idx : SDDirect;
  idx_pos : Z;                    (* size_t *)
  file_name : list ascii;         (* char file_name[MAX_FILE_LEN] *)
  exension : cstr;
  start_path : cstr;
  file_name_pattern : cstr;
  setup_index : bool;
  owns_cfg : bool;
  is_sd_setup : bool;
  is_close_sd : bool
}.

Record Sys : Type := mkSys {
  self : AudioSourceSDFAT;
  world : World
}.

(** What a member function returning [Stream*] hands back: the null
    pointer or the address of the member [file]. *)
Inductive StreamPtr : Type :=
| nullptr
| addr_file.

(** *** Field updates *)

Definition set_sd (v : AudioFs) (o : AudioSourceSDFAT) : AudioSourceSDFAT :=
  mkAudioSourceSDFAT (p_cfg o) v (file o) (idx o) (idx_pos o) (file_name o)
    (exension o) (start_path o) (file_name_pattern o) (setup_index o)
    (owns_cfg o) (is_sd_setup o) (is_close_sd o).

Definition set_file (v : AudioFile) (o : AudioSourceSDFAT) : AudioSourceSDFAT :=
  mkAudioSourceSDFAT (p_cfg o) (sd o) v (idx o) (idx_pos o) (file_name o)
    (exension o) (start_path o) (file_name_pattern o) (setup_index o)
    (owns_cfg o) (is_sd_setup o) (is_close_sd o).

Definition set_idx (v : SDDirect) (o : AudioSourceSDFAT) : AudioSourceSDFAT :=
  mkAudioSourceSDFAT (p_cfg o) (sd o) (file o) v (idx_pos o) (file_name o)
    (exension o) (start_path o) (file_name_pattern o) (setup_index o)
    (owns_cfg o) (is_sd_setup o) (is_close_sd o).

Definition set_idx_pos (v : Z) (o : AudioSourceSDFAT) : AudioSourceSDFAT :=
  mkAudioSourceSDFAT (p_cfg o) (sd o) (file o) (idx o) v (file_name o)
    (exension o) (start_path o) (file_name_pattern o) (setup_index o)
    (owns_cfg o) (is_sd_setup o) (is_close_sd o).

Definition set_file_name (v : list ascii) (o : AudioSourceSDFAT)
  : AudioSourceSDFAT :=
  mkAudioSourceSDFAT (p_cfg o) (sd o) (file o) (idx o) (idx_pos o) v
    (exension o) (start_path o) (file_name_pattern o) (setup_index o)
    (owns_cfg o) (is_sd_setup o) (is_close_sd o).

Definition set_start_path (v : cstr) (o : AudioSourceSDFAT) : AudioSourceSDFAT :=
  mkAudioSourceSDFAT (p_cfg o) (sd o) (file o) (idx o) (idx_pos o)
    (file_name o) (exension o) v (file_name_pattern o) (setup_index o)
    (owns_cfg o) (is_sd_setup o) (is_close_sd o).

Definition set_file_name_pattern (v : cstr) (o : AudioSourceSDFAT)
  : AudioSourceSDFAT :=
  mkAudioSourceSDFAT (p_cfg o) (sd o) (file o) (idx o) (idx_pos o)
    (file_name o) (exension o) (start_path o) v (setup_index o)
    (owns_cfg o) (is_sd_setup o) (is_close_sd o).

Definition set_is_sd_setup (v : bool) (o : AudioSourceSDFAT) : AudioSourceSDFAT :=
  mkAudioSourceSDFAT (p_cfg o) (sd o) (file o) (idx o) (idx_pos o)
    (file_name o) (exension o) (start_path o) (file_name_pattern o)
    (setup_index o) (owns_cfg o) v (is_close_sd o).

Definition set_p_cfg (v : option SdSpiConfig) (o : AudioSourceSDFAT)
  : AudioSourceSDFAT :=
  mkAudioSourceSDFAT v (sd o) (file o) (idx o) (idx_pos o)
    (file_name o) (exension o) (start_path o) (file_name_pattern o)
    (setup_index o) (owns_cfg o) (is_sd_setup o) (is_close_sd o).

Definition on_self (f : AudioSourceSDFAT -> AudioSourceSDFAT) (s : Sys) : Sys :=
  {| self := f (self s); world := world s |}.

Definition on_world (f : World -> World) (s : Sys) : Sys :=
  {| self := self s; world := f (world s) |}.

Definition emit (e : Event) (s : Sys) : Sys :=
  on_world (fun w => {| card := card w; handles := handles w;
                        trace := trace w ++ [e] |}) s.

Definition set_handles (n : nat) (s : Sys) : Sys :=
  on_world (fun w => {| card := card w; handles := n; trace := trace w |}) s.

(** *** Logging macros of AudioLogger.h *)

Definition LOGE (fmt : string) (args : list LogArg) : Sys -> Sys :=
  emit (EvLog LvlError fmt args).
Definition LOGI (fmt : string) (args : list LogArg) : Sys -> Sys :=
  emit (EvLog LvlInfo fmt args).
Definition TRACED : Sys -> Sys := emit (EvTrace LvlDebug).
Definition TRACEI : Sys -> Sys := emit (EvTrace LvlInfo).

(** *** Driver calls

    The driver is an external collaborator; these are its calls as this
    class uses them.  A successful [open] takes one handle on the card, a
    [close] of an open file object gives it back; opening through a file
    object that still holds a handle would lose the old one. *)

Definition file_close (s : Sys) : Sys :=
  let s := emit EvFileClose s in
  match opened (file (self s)) with
  | Some _ =>
      set_handles (Nat.pred (handles (world s)))
        (on_self (set_file {| opened := None |}) s)
  | None => s
  end.

Definition file_open (path : string) (s : Sys) : bool * Sys :=
  let ok := openable (card (world s)) path in
  let s := emit (EvFileOpen path ok) s in
  if ok then
    (true, set_handles (S (handles (world s)))
             (on_self (set_file {| opened := Some path |}) s))
  else (false, s).

Definition sd_begin (cfg : SdSpiConfig) (s : Sys) : bool * Sys :=
  let ok := mountable (card (world s)) cfg in
  let s := emit (EvSdBegin cfg ok) s in
  (ok, on_self (set_sd {| mounted := ok |}) s).

Definition sd_end (s : Sys) : Sys :=
  on_self (set_sd {| mounted := false |}) (emit EvSdEnd s).

Definition idx_begin (root ext pattern : cstr) (s : Sys) : Sys :=
  on_self (set_idx {| idx_configured := true; idx_root := root;
                      idx_ext := ext; idx_pattern := pattern |})
    (emit (EvIdxBegin root ext pattern) s).

(** [idx[pos]] *)
Definition idx_at (pos : Z) (s : Sys) : cstr * Sys :=
  let found := path_at (card (world s)) (idx (self s)) pos in
  (found, emit (EvIdxAt pos found) s).

Definition idx_size (s : Sys) : Z :=
  file_count (card (world s)) (idx (self s)).

(** ** Build configuration

    What the preprocessor and the configuration headers fix: whether
    [ESP32] is defined, the length [MAX_FILE_LEN] of the file name array,
    the macros [PIN_CS], [DEDICATED_SPI] and [SD_SCK_MHZ]. *)
Record Build : Type := mkBuild {
  ESP32 : bool;
  MAX_FILE_LEN : nat;
  PIN_CS : Z;
  DEDICATED_SPI : Z;
  SD_SCK_MHZ : Z -> Z
}.

Section Source.

Variable B : Build.

(** *** Constructors

    [raw_name] is the indeterminate content of the array [file_name],
    which no constructor initialises.  Members without a mention in a
    constructor take their default member initialiser. *)

(** [AudioSourceSDFAT(startFilePath, ext, chipSelect, speedMHz,
    spi_mode, setupIndex)] *)
Definition ctor (raw_name : list ascii) (startFilePath ext : cstr)
    (chipSelect speedMHz spi_mode : Z) (setupIndex : bool) (w : World)
  : Sys :=
  let cfg := mkSdSpiConfig chipSelect spi_mode (SD_SCK_MHZ B speedMHz) in
  let s :=
    {| self :=
         {| p_cfg := None; sd := {| mounted := false |};
            file := {| opened := None |}; idx := SDDirect_new;
            idx_pos := 0; file_name := raw_name;
            exension := None; start_path := None;
            file_name_pattern := Some "*";
            setup_index := true; owns_cfg := false;
            is_sd_setup := false; is_close_sd := true |};
       world := w |} in
  let s := TRACED s in
  let s := LOGI "SD chipSelect: %d" [ArgInt chipSelect] s in
  let s := LOGI "SD speedMHz: %d" [ArgInt speedMHz] s in
  let s := LOGI "ext: %s" [ArgStr ext] s in
  let s := emit (EvNewCfg cfg) s in
  on_self (fun o =>
             mkAudioSourceSDFAT (Some cfg) (sd o) (file o) (idx o)
               (idx_pos o) (file_name o) ext startFilePath
               (file_name_pattern o) setupIndex true
               (is_sd_setup o) (is_close_sd o)) s.

(** the default arguments of the first constructor *)
Definition ctor_default (raw_name : list ascii) (w : World) : Sys :=
  ctor raw_name (Some "/") (Some ".mp3") (PIN_CS B) 10 (DEDICATED_SPI B)
    true w.

(** [AudioSourceSDFAT(startFilePath, ext, SdSpiConfig &config,
    setupIndex)] *)
Definition ctor_cfg (raw_name : list ascii) (startFilePath ext : cstr)
    (config : SdSpiConfig) (setupIndex : bool) (w : World) : Sys :=
  let s :=
    {| self :=
         {| p_cfg := None; sd := {| mounted := false |};
            file := {| opened := None |}; idx := SDDirect_new;
            idx_pos := 0; file_name := raw_name;
            exension := None; start_path := None;
            file_name_pattern := Some "*";
            setup_index := true; owns_cfg := false;
            is_sd_setup := false; is_close_sd := true |};
       world := w |} in
  let s := TRACED s in
  on_self (fun o =>
             mkAudioSourceSDFAT (Some config) (sd o) (file o) (idx o)
               (idx_pos o) (file_name o) ext startFilePath
               (file_name_pattern o) setupIndex false
               (is_sd_setup o) (is_close_sd o)) s.

(** [AudioSourceSDFAT(AudioFs fs, startFilePath, ext, setupIndex)]: the
    constructor for an already open file system *)
Definition ctor_fs (raw_name : list ascii) (fs : AudioFs)
    (startFilePath ext : cstr) (setupIndex : bool) (w : World) : Sys :=
  let s :=
    {| self :=
         {| p_cfg := None; sd := {| mounted := false |};
            file := {| opened := None |}; idx := SDDirect_new;
            idx_pos := 0; file_name := raw_name;
            exension := None; start_path := None;
            file_name_pattern := Some "*";
            setup_index := true; owns_cfg := false;
            is_sd_setup := false; is_close_sd := true |};
       world := w |} in
  let s := TRACED s in
  on_self (fun o =>
             mkAudioSourceSDFAT None fs (file o) (idx o)
               (idx_pos o) (file_name o) ext startFilePath
               (file_name_pattern o) setupIndex false
               (* since we expect an open fs we do not close it *)
               true false) s.

(** *** [begin()]

    [None] is undefined behaviour: [*p_cfg] with a null [p_cfg]. *)
Definition begin (s : Sys) : option Sys :=
  let s := TRACED s in
  let mount : option (bool * Sys) :=
    if negb (is_sd_setup (self s)) then
      match p_cfg (self s) with
      | None => None
      | Some cfg =>
          let (ok, s) := sd_begin cfg s in
          if negb ok then Some (false, LOGE "sd.begin failed" [] s)
          else Some (true, on_self (set_is_sd_setup true) s)
      end
    else Some (true, s) in
  match mount with
  | None => None
  | Some (false, s) => Some s                       (* return; *)
  | Some (true, s) =>
      let s := idx_begin (start_path (self s)) (exension (self s))
                 (file_name_pattern (self s)) s in
      Some (on_self (set_idx_pos 0) s)
  end.

(** *** [end()] *)
Definition end_ (s : Sys) : Sys :=
  if is_sd_setup (self s) then
    let s := TRACEI s in
    let s := if ESP32 B then
               (if is_close_sd (self s) then sd_end s else s)
             else s in
    on_self (set_is_sd_setup false) s
  else s.

(** *** [selectStream(const char *path)] *)
Definition selectStream_path (path : cstr) (s : Sys) : StreamPtr * Sys :=
  let s := file_close s in
  match path with
  | None =>
      let s := LOGE "Filename is null" [] s in
      (nullptr, s)
  | Some p =>
      let (ok, s) := file_open p s in
      let s := if negb ok then LOGE "Open error: '%s'" [ArgStr path] s
               else s in
      let s := LOGI "-> selectStream: %s" [ArgStr path] s in
      let s := on_self (fun o =>
                 set_file_name
                   (strncpy (file_name o) p (MAX_FILE_LEN B)) o) s in
      (addr_file, s)
  end.

(** *** [selectStream(int index)] *)
Definition selectStream_index (index : Z) (s : Sys) : StreamPtr * Sys :=
  let s := LOGI "selectStream SDFAT: %d" [ArgInt index] s in
  let s := if index >? -1 then          (* avoid invalid position *)
             on_self (set_idx_pos (CInt.to_size_t index)) s
           else s in
  let (path, s) := idx_at (idx_pos (self s)) s in
  selectStream_path path s.

(** *** [nextStream(int offset = 1)]

    [idx_pos + offset] is computed in [size_t] and converted to the
    [int] parameter of [selectStream]. *)
Definition nextStream (offset : Z) (s : Sys) : StreamPtr * Sys :=
  let s := LOGI "nextStream: %d" [ArgInt offset] s in
  selectStream_index
    (CInt.to_int (CInt.size_plus_int (idx_pos (self s)) offset)) s.

Definition nextStream_default : Sys -> StreamPtr * Sys := nextStream 1.

(** *** The small members *)

Definition setFileFilter (filter : cstr) : Sys -> Sys :=
  on_self (set_file_name_pattern filter).

Definition index (s : Sys) : Z := CInt.to_int (idx_pos (self s)).

Definition toStr (s : Sys) : option string := c_str (file_name (self s)).

Definition isAutoNext (s : Sys) : bool := true.

Definition setPath (p : cstr) : Sys -> Sys := on_self (set_start_path p).

Definition size (s : Sys) : Z := idx_size s.

Definition getAudioFs (s : Sys) : AudioFs := sd (self s).

(** *** Destructor: what is left of the world once the object is gone *)
Definition dtor (s : Sys) : World :=
  let s := end_ s in
  let s := if owns_cfg (self s) then emit EvDeleteCfg s else s in
  world s.

(** *** Sequences of calls

    [CardChanged] is not a call of the class: it stands for the card
    being swapped or modified by someone else between two calls. *)
Inductive Call : Type :=
| CallBegin
| CallEnd
| CallNextStream (offset : Z)
| CallSelectIndex (i : Z)
| CallSelectPath (path : cstr)
| CallSetFileFilter (filter : cstr)
| CallSetPath (p : cstr)
| CardChanged (c : Card).

Definition change_card (c : Card) : Sys -> Sys :=
  on_world (fun w => {| card := c; handles := handles w;
                        trace := trace w |}).

Definition exec (c : Call) (s : Sys) : option Sys :=
  match c with
  | CallBegin => begin s
  | CallEnd => Some (end_ s)
  | CallNextStream offset => Some (snd (nextStream offset s))
  | CallSelectIndex i => Some (snd (selectStream_index i s))
  | CallSelectPath path => Some (snd (selectStream_path path s))
  | CallSetFileFilter filter => Some (setFileFilter filter s)
  | CallSetPath p => Some (setPath p s)
  | CardChanged c => Some (change_card c s)
  end.

Fixpoint run (calls : list Call) (s : Sys) : option Sys :=
  match calls with
  | [] => Some s
  | c :: rest =>
      match exec c s with
      | Some s' => run rest s'
      | None => None
      end
  end.

(** a call that is one of the three stream selections or a change of
    the card *)
Definition is_navigation (c : Call) : bool :=
  match c with
  | CallNextStream _ | CallSelectIndex _ | CallSelectPath _
  | CardChanged _ => true
  | _ => false
  end.

End Source.

(** ** Properties of states used in the statements *)

(** The handles held on the card are exactly the one of the member
    [file], if it is open. *)
Definition single_handle (s : Sys) : Prop :=
  handles (world s) = if isOpen (file (self s)) then 1%nat else 0%nat.

(** [extends s s' evs]: [s'] has the trace of [s] followed by [evs] *)
Definition extends (s s' : Sys) (evs : list Event) : Prop :=
  trace (world s') = (trace (world s) ++ evs)%list.

(** a string that can be the content of a C string: no NUL inside *)
Fixpoint no_nul (p : string) : bool :=
  match p with
  | EmptyString => true
  | String c rest => negb (Ascii.eqb c NUL) && no_nul rest
  end.

(** two systems that differ at most in their trace *)
Definition same_but_trace (s s' : Sys) : Prop :=
  self s = self s' /\ card (world s) = card (world s')
  /\ handles (world s) = handles (world s').

(** the members that [selectStream] leaves alone: all but [file],
    [file_name] and [idx_pos] *)
Definition same_configuration (o o' : AudioSourceSDFAT) : Prop :=
  p_cfg o = p_cfg o' /\ sd o = sd o' /\ idx o = idx o'
  /\ exension o = exension o' /\ start_path o = start_path o'
  /\ file_name_pattern o = file_name_pattern o'
  /\ setup_index o = setup_index o' /\ owns_cfg o = owns_cfg o'
  /\ is_sd_setup o = is_sd_setup o' /\ is_close_sd o = is_close_sd o'.

(** the position that [selectStream(index)] works with *)
Definition adopted_position (index : Z) (s : Sys) : Z :=
  if index >? -1 then index else idx_pos (self s).

(** the path that the enumerator of [s] finds at [pos] *)
Definition resolve (pos : Z) (s : Sys) : cstr :=
  path_at (card (world s)) (idx (self s)) pos.

(** A session on a file system it was given ([w] is the world at
    construction): the session does not close the file system, has no
    configuration to mount with, still has the file system [fs] it was
    given, and has not called [sd.end()]. *)
Definition guest_session (fs : AudioFs) (w : World) (s : Sys) : Prop :=
  is_close_sd (self s) = false /\ p_cfg (self s) = None
  /\ sd (self s) = fs
  /\ exists evs, trace (world s) = trace w ++ evs
                 /\ existsb is_sd_end_event evs = false.

(** A session that mounts for itself: it closes the file system on tear
    down, and its mount flag is set only after a successful [sd.begin]
    of its own. *)
Definition owner_session (w : World) (s : Sys) : Prop :=
  is_close_sd (self s) = true
  /\ exists evs, trace (world s) = trace w ++ evs
                 /\ (is_sd_setup (self s) = true ->
                     exists cfg, In (EvSdBegin cfg true) evs).

(** the position is one that an [int] index can have set *)
Definition pos_ok (s : Sys) : Prop :=
  0 <= idx_pos (self s) <= CInt.INT_MAX.

(** the [int] arguments of a call are [int]s *)
Definition int_args (c : Call) : Prop :=
  match c with
  | CallNextStream offset => CInt.int_range offset
  | CallSelectIndex i => CInt.int_range i
  | _ => True
  end.

(** the calls that select no file: everything but a stream selection
    that may come with a path *)
Definition is_quiet (c : Call) : bool :=
  match c with
  | CallNextStream _ | CallSelectIndex _ | CallSelectPath (Some _) => false
  | _ => true
  end.

(** the position after [nextStream(offset)] from position [pos] *)
Definition stepped_position (pos offset : Z) : Z :=
  if (0 <=? pos + offset) && (pos + offset <=? CInt.INT_MAX)
  then pos + offset else pos.

(** What a [selectStream(path)] is to achieve, stated apart from the
    code: the stream handed back, the path the file object holds a handle
    on afterwards, and the calls and log lines, in order. *)
Definition selection_stream (path : cstr) : StreamPtr :=
  match path with
  | None => nullptr
  | Some _ => addr_file
  end.

Definition selected_file (path : cstr) (c : Card) : option string :=
  match path with
  | None => None
  | Some p => if openable c p then Some p else None
  end.

Definition selected_handles (path : cstr) (c : Card) : nat :=
  match selected_file path c with
  | Some _ => 1%nat
  | None => 0%nat
  end.

Definition selection_events (path : cstr) (c : Card) : list Event :=
  EvFileClose
  :: match path with
     | None => [EvLog LvlError "Filename is null" []]
     | Some p =>
         EvFileOpen p (openable c p)
         :: (if openable c p then []
             else [EvLog LvlError "Open error: '%s'" [ArgStr path]])
         ++ [EvLog LvlInfo "-> selectStream: %s" [ArgStr path]]
     end.

(** the position held after [selectStream(index)], with the conversion
    of the [int] to [size_t] written out *)
Definition position_after (index : Z) (s : Sys) : Z :=
  if index >? -1 then CInt.to_size_t index else idx_pos (self s).

(** the [int] that [nextStream(offset)] hands to [selectStream(int)] *)
Definition next_index (offset : Z) (s : Sys) : Z :=
  CInt.to_int (CInt.size_plus_int (idx_pos (self s)) offset).

(** ** A concrete card and build, for the examples

    The tree of scenario A of the specification: [a.mp3], [b.txt] and
    [c.mp3] under the root, of which the enumerator with extension
    [.mp3] and pattern [*] finds the first and the last. *)
Module Demo.

Definition esp32 : Build :=
  {| ESP32 := true; MAX_FILE_LEN := 256; PIN_CS := 13;
     DEDICATED_SPI := 1; SD_SCK_MHZ := fun mhz => 1000000 * mhz |}.

Definition desktop : Build :=
  {| ESP32 := false; MAX_FILE_LEN := 256; PIN_CS := 13;
     DEDICATED_SPI := 1; SD_SCK_MHZ := fun mhz => 1000000 * mhz |}.

Definition files : list string := ["/a.mp3"; "/b.txt"; "/c.mp3"].
Definition matches : list string := ["/a.mp3"; "/c.mp3"].

Definition sd_card : Card :=
  {| mountable := fun _ => true;
     openable := fun p => existsb (String.eqb p) files;
     path_at := fun d i =>
       if idx_configured d && (0 <=? i)
       then nth_error matches (Z.to_nat i) else None;
     file_count := fun d =>
       if idx_configured d then Z.of_nat (List.length matches) else 0 |}.

(** no card in the slot *)
Definition no_card : Card :=
  {| mountable := fun _ => false;
     openable := fun _ => false;
     path_at := fun _ _ => None;
     file_count := fun _ => 0 |}.

(** the array [file_name] before anything was stored in it *)
Definition raw : list ascii := repeat "x"%char 256.

Definition constructed : Sys := ctor_default esp32 raw (fresh_world sd_card).

Definition constructed_no_card : Sys :=
  ctor_default esp32 raw (fresh_world no_card).

Definition force (o : option Sys) : Sys :=
  match o with Some s => s | None => constructed end.

(** after [begin()] *)
Definition started : Sys := force (begin constructed).

(** after [begin()] and [selectStream("/a.mp3")] *)
Definition playing : Sys :=
  snd (selectStream_path esp32 (Some "/a.mp3") started).

(** a session on a file system that somebody else mounted *)
Definition guest : Sys :=
  ctor_fs raw {| mounted := true |} (Some "/") (Some ".mp3") true
    (fresh_world sd_card).

Definition guest_playing : Sys :=
  snd (selectStream_path esp32 (Some "/a.mp3") (force (begin guest))).

End Demo.

(** * Proofs *)

(** ** Machine integers *)

Lemma to_size_t_id (z : Z) : CInt.size_range z -> CInt.to_size_t z = z.
Proof.
  unfold CInt.size_range, CInt.to_size_t. intros H.
  now apply Z.mod_small.
Qed.

Lemma to_int_id (z : Z) : CInt.int_range z -> CInt.to_int z = z.
Proof.
  unfold CInt.int_range, CInt.to_int, CInt.INT_MIN, CInt.INT_MAX,
    CInt.modulus, CInt.half, CInt.WIDTH.
  intros H. rewrite Z.mod_small; lia.
Qed.

(** The sum of a position and an offset, computed in [size_t] and passed
    as an [int], is the sum of the integers whenever that sum is an
    [int]. *)
Lemma to_int_size_plus_int (a b : Z) :
  CInt.int_range (a + b) -> CInt.to_int (CInt.size_plus_int a b) = a + b.
Proof.
  intros H. rewrite <- (to_int_id (a + b) H).
  unfold CInt.to_int, CInt.size_plus_int, CInt.to_size_t. f_equal.
  rewrite Zplus_mod_idemp_l.
  replace (a + b mod CInt.modulus + CInt.half)
    with (b mod CInt.modulus + (a + CInt.half)) by ring.
  rewrite Zplus_mod_idemp_l. f_equal. ring.
Qed.

(** ** C strings *)

Lemma c_str_strncpy_cells (p : string) :
  forall (n : nat) (tail : list ascii),
    no_nul p = true -> (String.length p < n)%nat ->
    c_str (strncpy_cells p n ++ tail) = Some p.
Proof.
  induction p as [|c rest IH]; intros n tail Hnul Hlen.
  - destruct n as [|n']; [inversion Hlen|]. reflexivity.
  - destruct n as [|n']; [inversion Hlen|].
    simpl in Hnul. apply andb_true_iff in Hnul. destruct Hnul as [Hc Hrest].
    simpl. apply negb_true_iff in Hc. rewrite Hc.
    rewrite IH; [reflexivity | assumption | simpl in Hlen; lia].
Qed.

Lemma c_str_strncpy (dest : list ascii) (p : string) (n : nat) :
  no_nul p = true -> (String.length p < n)%nat ->
  c_str (strncpy dest p n) = Some p.
Proof. intros. unfold strncpy. now apply c_str_strncpy_cells. Qed.

(** ** The driver calls *)

Lemma file_close_card (s : Sys) : card (world (file_close s)) = card (world s).
Proof. unfold file_close. simpl. destruct (opened (file (self s))); reflexivity. Qed.

Lemma file_close_closed (s : Sys) : opened (file (self (file_close s))) = None.
Proof.
  unfold file_close. simpl.
  destruct (opened (file (self s))) eqn:E; simpl; [reflexivity | exact E].
Qed.

Lemma file_close_handles (s : Sys) :
  handles (world (file_close s))
  = (handles (world s) - (if isOpen (file (self s)) then 1 else 0))%nat.
Proof.
  unfold file_close, isOpen. simpl.
  destruct (opened (file (self s))); simpl; lia.
Qed.

Lemma file_close_trace (s : Sys) :
  trace (world (file_close s)) = trace (world s) ++ [EvFileClose].
Proof. unfold file_close. simpl. destruct (opened (file (self s))); reflexivity. Qed.

(** [close] changes no member but [file] *)
Lemma file_close_frame (s : Sys) :
  self (file_close s) = set_file {| opened := None |} (self s).
Proof.
  unfold file_close. simpl.
  destruct (opened (file (self s))) eqn:E; simpl; [reflexivity|].
  destruct s as [[c f [o] i ip fn ex sp fp si oc iss ics] w].
  simpl in *. subst o. reflexivity.
Qed.

Lemma file_close_single_handle (s : Sys) :
  single_handle s ->
  handles (world (file_close s)) = 0%nat /\ isOpen (file (self (file_close s))) = false.
Proof.
  unfold single_handle. intros H. split.
  - rewrite file_close_handles, H. destruct (isOpen (file (self s))); reflexivity.
  - unfold isOpen. now rewrite file_close_closed.
Qed.

(** ** [selectStream(const char *path)], case by case *)

Section SelectPath.

Variable B : Build.

Lemma selectStream_path_null (s : Sys) :
  selectStream_path B None s
  = (nullptr, LOGE "Filename is null" [] (file_close s)).
Proof. reflexivity. Qed.

Lemma selectStream_path_open_fails (s : Sys) (p : string) :
  openable (card (world s)) p = false ->
  selectStream_path B (Some p) s
  = (addr_file,
     on_self (fun o => set_file_name
                         (strncpy (file_name o) p (MAX_FILE_LEN B)) o)
       (LOGI "-> selectStream: %s" [ArgStr (Some p)]
          (LOGE "Open error: '%s'" [ArgStr (Some p)]
             (emit (EvFileOpen p false) (file_close s))))).
Proof.
  intros H. unfold selectStream_path, file_open.
  rewrite file_close_card, H. reflexivity.
Qed.

Lemma selectStream_path_open_succeeds (s : Sys) (p : string) :
  openable (card (world s)) p = true ->
  selectStream_path B (Some p) s
  = (addr_file,
     on_self (fun o => set_file_name
                         (strncpy (file_name o) p (MAX_FILE_LEN B)) o)
       (LOGI "-> selectStream: %s" [ArgStr (Some p)]
          (set_handles (S (handles (world (file_close s))))
             (on_self (set_file {| opened := Some p |})
                (emit (EvFileOpen p true) (file_close s)))))).
Proof.
  intros H. unfold selectStream_path, file_open.
  rewrite file_close_card, H. reflexivity.
Qed.

(** the name array after the call, whatever the card says *)
Lemma selectStream_path_name (s : Sys) (p : string) :
  file_name (self (snd (selectStream_path B (Some p) s)))
  = strncpy (file_name (self s)) p (MAX_FILE_LEN B).
Proof.
  destruct (openable (card (world s)) p) eqn:E.
  - rewrite (selectStream_path_open_succeeds s p E). simpl.
    now rewrite file_close_frame.
  - rewrite (selectStream_path_open_fails s p E). simpl.
    now rewrite file_close_frame.
Qed.

(** the trace of the call starts with the [close] *)
Lemma selectStream_path_closes_first (s : Sys) (path : cstr) :
  exists evs, extends s (snd (selectStream_path B path s)) (EvFileClose :: evs)
              /\ (path = None -> existsb is_file_open_event evs = false).
Proof.
  unfold extends. destruct path as [p|].
  - destruct (openable (card (world s)) p) eqn:E.
    + rewrite (selectStream_path_open_succeeds s p E). simpl.
      rewrite file_close_trace. rewrite <- !app_assoc. simpl.
      eexists. split; [reflexivity | discriminate].
    + rewrite (selectStream_path_open_fails s p E). simpl.
      rewrite file_close_trace. rewrite <- !app_assoc. simpl.
      eexists. split; [reflexivity | discriminate].
  - rewrite selectStream_path_null. simpl.
    rewrite file_close_trace. rewrite <- !app_assoc. simpl.
    eexists. split; [reflexivity | reflexivity].
Qed.

Lemma selectStream_path_single_handle (s : Sys) (path : cstr) :
  single_handle s -> single_handle (snd (selectStream_path B path s)).
Proof.
  intros H. destruct (file_close_single_handle s H) as [H0 Hc].
  unfold single_handle. destruct path as [p|].
  - destruct (openable (card (world s)) p) eqn:E.
    + rewrite (selectStream_path_open_succeeds s p E). simpl.
      now rewrite H0.
    + rewrite (selectStream_path_open_fails s p E). simpl.
      now rewrite H0, Hc.
  - rewrite selectStream_path_null. simpl. now rewrite H0, Hc.
Qed.

End SelectPath.

(** ** Selecting a path that does not open *)

(** C1, as stated, does not hold: on the demo card, with ["/a.mp3"]
    playing, [selectStream("/missing.mp3")] cannot open the file and
    still returns a stream (the address of the member [file]), not the
    null pointer. *)
Lemma failed_open_returns_stream_cex :
  openable (card (world Demo.playing)) "/missing.mp3" = false
  /\ fst (selectStream_path Demo.esp32 (Some "/missing.mp3") Demo.playing)
     <> nullptr.
Proof.
  split; [reflexivity|].
  vm_compute. intros H. discriminate H.
Qed.

(** C1, amended: when the file cannot be opened, [selectStream(path)]
    logs the error and returns the address of its own file object, not a
    null pointer.  That file object is closed (the handle held before the
    call was given back, none was taken), and the mount flag and the
    position are those of before the call. *)
Theorem selectStream_path_open_failure (B : Build) (s : Sys) (p : string) :
  openable (card (world s)) p = false ->
  fst (selectStream_path B (Some p) s) = addr_file
  /\ isOpen (file (self (snd (selectStream_path B (Some p) s)))) = false
  /\ handles (world (snd (selectStream_path B (Some p) s)))
     = (handles (world s) - (if isOpen (file (self s)) then 1 else 0))%nat
  /\ is_sd_setup (self (snd (selectStream_path B (Some p) s)))
     = is_sd_setup (self s)
  /\ idx_pos (self (snd (selectStream_path B (Some p) s))) = idx_pos (self s)
  /\ extends s (snd (selectStream_path B (Some p) s))
       [EvFileClose; EvFileOpen p false;
        EvLog LvlError "Open error: '%s'" [ArgStr (Some p)];
        EvLog LvlInfo "-> selectStream: %s" [ArgStr (Some p)]].
Proof.
  intros H. rewrite (selectStream_path_open_fails B s p H). simpl.
  repeat split.
  - unfold isOpen. now rewrite file_close_closed.
  - apply file_close_handles.
  - now rewrite file_close_frame.
  - now rewrite file_close_frame.
  - unfold extends. simpl. rewrite file_close_trace.
    rewrite <- !app_assoc. reflexivity.
Qed.

Lemma selectStream_path_open_failure_witness :
  fst (selectStream_path Demo.esp32 (Some "/missing.mp3") Demo.playing)
  = addr_file
  /\ isOpen (file (self (snd (selectStream_path Demo.esp32
                                 (Some "/missing.mp3") Demo.playing)))) = false.
Proof.
  destruct (selectStream_path_open_failure Demo.esp32 Demo.playing
              "/missing.mp3" eq_refl) as [H1 [H2 _]].
  split; [exact H1 | exact H2].
Defined.

(** C2, as stated, does not hold: with ["/a.mp3"] playing, a failed
    [selectStream("/missing.mp3")] leaves [toStr()] naming the path of the
    failed attempt. *)
Lemma failed_open_overwrites_name_cex :
  toStr Demo.playing = Some "/a.mp3"
  /\ openable (card (world Demo.playing)) "/missing.mp3" = false
  /\ toStr (snd (selectStream_path Demo.esp32 (Some "/missing.mp3")
                   Demo.playing)) = Some "/missing.mp3"
  /\ toStr (snd (selectStream_path Demo.esp32 (Some "/missing.mp3")
                   Demo.playing)) <> toStr Demo.playing.
Proof.
  repeat split; try reflexivity.
  vm_compute. intros H. discriminate H.
Qed.

(** C2, amended: [selectStream(path)] with a non-null path copies the
    path into the stored file name whether or not the file opens, so that
    after a failed attempt [toStr()] names the path of that attempt (for
    a path shorter than [MAX_FILE_LEN]).  The stored name is left
    unchanged only when the path is null. *)
Theorem selectStream_path_file_name (B : Build) (s : Sys) :
  file_name (self (snd (selectStream_path B None s))) = file_name (self s)
  /\ forall p : string,
      file_name (self (snd (selectStream_path B (Some p) s)))
      = strncpy (file_name (self s)) p (MAX_FILE_LEN B)
      /\ (no_nul p = true -> (String.length p < MAX_FILE_LEN B)%nat ->
          toStr (snd (selectStream_path B (Some p) s)) = Some p).
Proof.
  split.
  - rewrite selectStream_path_null. simpl. now rewrite file_close_frame.
  - intros p. split.
    + apply selectStream_path_name.
    + intros Hnul Hlen. unfold toStr.
      rewrite selectStream_path_name. now apply c_str_strncpy.
Qed.

Lemma selectStream_path_file_name_witness :
  toStr (snd (selectStream_path Demo.esp32 (Some "/missing.mp3")
                Demo.playing)) = Some "/missing.mp3".
Proof.
  destruct (selectStream_path_file_name Demo.esp32 Demo.playing) as [_ H].
  destruct (H "/missing.mp3") as [_ H'].
  apply H'; [reflexivity | vm_compute; lia].
Defined.

(** ** Null and empty paths *)

(** C9, as stated, does not hold for the empty string: the open is
    attempted and a stream is returned. *)
Lemma empty_path_not_rejected_cex :
  fst (selectStream_path Demo.esp32 (Some "") Demo.started) <> nullptr
  /\ In (EvFileOpen "" false)
       (trace (world (snd (selectStream_path Demo.esp32 (Some "")
                             Demo.started)))).
Proof.
  split.
  - vm_compute. intros H. discriminate H.
  - vm_compute. tauto.
Qed.

(** C9, amended: [selectStream(path)] rejects a null path only: it closes
    the file object, logs an error and returns no stream, without
    attempting to open a file.  The empty string is not rejected: it is
    handed to [open] like any other path and the address of the file
    object is returned. *)
Theorem selectStream_path_null_only (B : Build) (s : Sys) :
  (fst (selectStream_path B None s) = nullptr
   /\ extends s (snd (selectStream_path B None s))
        [EvFileClose; EvLog LvlError "Filename is null" []]
   /\ isOpen (file (self (snd (selectStream_path B None s)))) = false)
  /\ (fst (selectStream_path B (Some "") s) = addr_file
      /\ exists evs,
          extends s (snd (selectStream_path B (Some "") s))
            (EvFileClose
               :: EvFileOpen "" (openable (card (world s)) "") :: evs)).
Proof.
  split.
  - rewrite selectStream_path_null. simpl. repeat split.
    + unfold extends. simpl. rewrite file_close_trace.
      rewrite <- !app_assoc. reflexivity.
    + unfold isOpen. now rewrite file_close_closed.
  - unfold extends. destruct (openable (card (world s)) "") eqn:E.
    + rewrite (selectStream_path_open_succeeds B s "" E). simpl.
      split; [reflexivity|]. rewrite file_close_trace.
      rewrite <- !app_assoc. simpl. eexists. reflexivity.
    + rewrite (selectStream_path_open_fails B s "" E). simpl.
      split; [reflexivity|]. rewrite file_close_trace.
      rewrite <- !app_assoc. simpl. eexists. reflexivity.
Qed.

(** ** Tear down *)

Lemma end_extends (B : Build) (s : Sys) :
  exists evs, extends s (end_ B s) evs
              /\ existsb is_file_close_event evs = false
              /\ existsb is_file_open_event evs = false
              /\ (existsb is_sd_end_event evs = true ->
                  ESP32 B = true /\ is_close_sd (self s) = true
                  /\ is_sd_setup (self s) = true).
Proof.
  unfold end_, extends.
  destruct (is_sd_setup (self s)) eqn:Hs; simpl.
  - destruct (ESP32 B) eqn:He; simpl.
    + destruct (is_close_sd (self s)) eqn:Hc; simpl.
      * exists [EvTrace LvlInfo; EvSdEnd]. rewrite <- app_assoc.
        repeat split; reflexivity.
      * exists [EvTrace LvlInfo]. repeat split; discriminate.
    + exists [EvTrace LvlInfo]. repeat split; discriminate.
  - exists []. rewrite app_nil_r. repeat split; discriminate.
Qed.

Lemma end_file (B : Build) (s : Sys) : file (self (end_ B s)) = file (self s).
Proof.
  unfold end_. destruct (is_sd_setup (self s)); [|reflexivity].
  simpl. destruct (ESP32 B); [destruct (is_close_sd (self s))|]; reflexivity.
Qed.

Lemma end_handles (B : Build) (s : Sys) :
  handles (world (end_ B s)) = handles (world s).
Proof.
  unfold end_. destruct (is_sd_setup (self s)); [|reflexivity].
  simpl. destruct (ESP32 B); [destruct (is_close_sd (self s))|]; reflexivity.
Qed.

(** C4, as stated, does not hold: [end()] on a session that is playing
    ["/a.mp3"] leaves the file open and the handle held; so for a session
    that mounted the card itself and so for one on a file system it was
    given. *)
Lemma end_keeps_file_open_cex :
  (isOpen (file (self Demo.playing)) = true
   /\ isOpen (file (self (end_ Demo.esp32 Demo.playing))) = true
   /\ handles (world (end_ Demo.esp32 Demo.playing)) = 1%nat)
  /\ (isOpen (file (self Demo.guest_playing)) = true
      /\ isOpen (file (self (end_ Demo.esp32 Demo.guest_playing))) = true
      /\ handles (world (end_ Demo.esp32 Demo.guest_playing)) = 1%nat).
Proof. repeat split; reflexivity. Qed.

(** C4, amended: [end()] does not touch the stream handle: the file
    object and the number of handles held are after the call what they
    were before it, and [end()] makes no call of [close].  All it does
    is to clear the mount flag, after unmounting the card where the
    session owns the mount (on the ESP32). *)
Theorem end_leaves_file_untouched (B : Build) (s : Sys) :
  file (self (end_ B s)) = file (self s)
  /\ handles (world (end_ B s)) = handles (world s)
  /\ is_sd_setup (self (end_ B s)) = false
  /\ exists evs, extends s (end_ B s) evs
                 /\ existsb is_file_close_event evs = false.
Proof.
  split; [apply end_file|]. split; [apply end_handles|]. split.
  - unfold end_. destruct (is_sd_setup (self s)) eqn:Hs; [|exact Hs].
    simpl. destruct (ESP32 B); [destruct (is_close_sd (self s))|]; reflexivity.
  - destruct (end_extends B s) as [evs [H1 [H2 _]]]. now exists evs.
Qed.

(** ** Selecting by position *)

Lemma selectStream_path_frame (B : Build) (path : cstr) (s : Sys) :
  same_configuration (self s) (self (snd (selectStream_path B path s)))
  /\ idx_pos (self (snd (selectStream_path B path s))) = idx_pos (self s)
  /\ card (world (snd (selectStream_path B path s))) = card (world s).
Proof.
  unfold same_configuration. destruct path as [p|].
  - destruct (openable (card (world s)) p) eqn:E.
    + rewrite (selectStream_path_open_succeeds B s p E). simpl.
      rewrite file_close_frame, file_close_card. simpl. tauto.
    + rewrite (selectStream_path_open_fails B s p E). simpl.
      rewrite file_close_frame, file_close_card. simpl. tauto.
  - rewrite selectStream_path_null. simpl.
    rewrite file_close_frame, file_close_card. simpl. tauto.
Qed.

Lemma selectStream_path_same_but_trace (B : Build) (path : cstr) (s1 s2 : Sys) :
  same_but_trace s1 s2 ->
  fst (selectStream_path B path s1) = fst (selectStream_path B path s2)
  /\ same_but_trace (snd (selectStream_path B path s1))
       (snd (selectStream_path B path s2)).
Proof.
  intros [Hs [Hc Hh]]. unfold same_but_trace. destruct path as [p|].
  - destruct (openable (card (world s1)) p) eqn:E1.
    + assert (E2 : openable (card (world s2)) p = true) by now rewrite <- Hc.
      rewrite (selectStream_path_open_succeeds B s1 p E1).
      rewrite (selectStream_path_open_succeeds B s2 p E2). simpl.
      rewrite !file_close_frame, !file_close_card, !file_close_handles.
      rewrite Hs, Hc, Hh. tauto.
    + assert (E2 : openable (card (world s2)) p = false) by now rewrite <- Hc.
      rewrite (selectStream_path_open_fails B s1 p E1).
      rewrite (selectStream_path_open_fails B s2 p E2). simpl.
      rewrite !file_close_frame, !file_close_card, !file_close_handles.
      rewrite Hs, Hc, Hh. tauto.
  - rewrite !selectStream_path_null. simpl.
    rewrite !file_close_frame, !file_close_card, !file_close_handles.
    rewrite Hs, Hc, Hh. tauto.
Qed.

Lemma selectStream_index_unfold (B : Build) (index : Z) (s : Sys) :
  selectStream_index B index s
  = selectStream_path B
      (path_at (card (world s)) (idx (self s))
         (if index >? -1 then CInt.to_size_t index else idx_pos (self s)))
      (emit (EvIdxAt
               (if index >? -1 then CInt.to_size_t index else idx_pos (self s))
               (path_at (card (world s)) (idx (self s))
                  (if index >? -1 then CInt.to_size_t index
                   else idx_pos (self s))))
         (if index >? -1
          then on_self (set_idx_pos (CInt.to_size_t index))
                 (LOGI "selectStream SDFAT: %d" [ArgInt index] s)
          else LOGI "selectStream SDFAT: %d" [ArgInt index] s)).
Proof.
  unfold selectStream_index, idx_at. destruct (index >? -1); reflexivity.
Qed.

Lemma selectStream_index_same_but_trace (B : Build) (index : Z) (s1 s2 : Sys) :
  same_but_trace s1 s2 ->
  fst (selectStream_index B index s1) = fst (selectStream_index B index s2)
  /\ same_but_trace (snd (selectStream_index B index s1))
       (snd (selectStream_index B index s2)).
Proof.
  intros [Hs [Hc Hh]]. rewrite !selectStream_index_unfold.
  rewrite Hs, Hc. apply selectStream_path_same_but_trace.
  unfold same_but_trace. destruct (index >? -1); simpl; rewrite Hs; tauto.
Qed.

Lemma nonneg_int_is_size (i : Z) :
  CInt.int_range i -> i > -1 -> CInt.to_size_t i = i.
Proof.
  unfold CInt.int_range, CInt.INT_MIN, CInt.INT_MAX, CInt.half, CInt.WIDTH.
  intros H Hi. apply to_size_t_id.
  unfold CInt.size_range, CInt.modulus, CInt.WIDTH. simpl in *. lia.
Qed.

(** ** What a selection achieves *)

(** the object that a selection leaves, from the object it finds *)
Lemma selectStream_path_self (B : Build) (path : cstr) (s : Sys) :
  self (snd (selectStream_path B path s))
  = match path with
    | None => set_file {| opened := None |} (self s)
    | Some p =>
        set_file_name (strncpy (file_name (self s)) p (MAX_FILE_LEN B))
          (set_file
             {| opened := if openable (card (world s)) p then Some p
                          else None |} (self s))
    end.
Proof.
  destruct path as [p|].
  - destruct (openable (card (world s)) p) eqn:E.
    + rewrite (selectStream_path_open_succeeds B s p E). simpl.
      now rewrite file_close_frame.
    + rewrite (selectStream_path_open_fails B s p E). simpl.
      now rewrite file_close_frame.
  - rewrite selectStream_path_null. simpl. now rewrite file_close_frame.
Qed.

Lemma selectStream_path_handles (B : Build) (path : cstr) (s : Sys) :
  single_handle s ->
  handles (world (snd (selectStream_path B path s)))
  = match path with
    | None => 0%nat
    | Some p => if openable (card (world s)) p then 1%nat else 0%nat
    end.
Proof.
  intros Hs. destruct (file_close_single_handle s Hs) as [H0 _].
  destruct path as [p|].
  - destruct (openable (card (world s)) p) eqn:E.
    + rewrite (selectStream_path_open_succeeds B s p E). simpl. now rewrite H0.
    + rewrite (selectStream_path_open_fails B s p E). simpl. exact H0.
  - rewrite selectStream_path_null. simpl. exact H0.
Qed.

Lemma selectStream_path_outcome (B : Build) (path : cstr) (s : Sys) :
  fst (selectStream_path B path s) = selection_stream path
  /\ opened (file (self (snd (selectStream_path B path s))))
     = selected_file path (card (world s))
  /\ extends s (snd (selectStream_path B path s))
       (selection_events path (card (world s)))
  /\ (single_handle s ->
      handles (world (snd (selectStream_path B path s)))
      = selected_handles path (card (world s))).
Proof.
  unfold selection_stream, selected_handles, selected_file, selection_events,
    extends.
  split; [|split; [|split]].
  - destruct path as [p|]; [|reflexivity].
    destruct (openable (card (world s)) p) eqn:E.
    + now rewrite (selectStream_path_open_succeeds B s p E).
    + now rewrite (selectStream_path_open_fails B s p E).
  - rewrite selectStream_path_self. destruct path as [p|]; reflexivity.
  - destruct path as [p|].
    + destruct (openable (card (world s)) p) eqn:E.
      * rewrite (selectStream_path_open_succeeds B s p E). simpl.
        rewrite file_close_trace, <- !app_assoc. reflexivity.
      * rewrite (selectStream_path_open_fails B s p E). simpl.
        rewrite file_close_trace, <- !app_assoc. reflexivity.
    + rewrite selectStream_path_null. simpl.
      rewrite file_close_trace, <- !app_assoc. reflexivity.
  - intros Hs. rewrite (selectStream_path_handles B path s Hs).
    destruct path as [p|]; [|reflexivity].
    destruct (openable (card (world s)) p); reflexivity.
Qed.

(** the same for a selection by position: the enumerator is asked for the
    path at the position held after the guard, and that path is
    selected *)
Lemma selectStream_index_outcome (B : Build) (i : Z) (s : Sys) :
  fst (selectStream_index B i s)
  = selection_stream (resolve (position_after i s) s)
  /\ opened (file (self (snd (selectStream_index B i s))))
     = selected_file (resolve (position_after i s) s) (card (world s))
  /\ extends s (snd (selectStream_index B i s))
       ([EvLog LvlInfo "selectStream SDFAT: %d" [ArgInt i];
         EvIdxAt (position_after i s) (resolve (position_after i s) s)]
          ++ selection_events (resolve (position_after i s) s)
               (card (world s)))
  /\ (single_handle s ->
      handles (world (snd (selectStream_index B i s)))
      = selected_handles (resolve (position_after i s) s) (card (world s))).
Proof.
  unfold position_after, resolve. rewrite selectStream_index_unfold.
  match goal with
  | |- context [selectStream_path B ?q ?t] =>
      destruct (selectStream_path_outcome B q t) as [H1 [H2 [H3 H4]]];
      assert (Hc : card (world t) = card (world s))
        by (destruct (i >? -1); reflexivity);
      assert (Ht : trace (world t)
                   = trace (world s)
                       ++ [EvLog LvlInfo "selectStream SDFAT: %d" [ArgInt i];
                           EvIdxAt
                             (if i >? -1 then CInt.to_size_t i
                              else idx_pos (self s)) q])
        by (destruct (i >? -1); simpl; rewrite <- !app_assoc; reflexivity);
      assert (Hh : single_handle s -> single_handle t)
        by (unfold single_handle; destruct (i >? -1); simpl; auto)
  end.
  rewrite Hc in *. split; [exact H1|]. split; [exact H2|]. split.
  - unfold extends in *. rewrite H3, Ht, <- app_assoc. reflexivity.
  - intros Hs. exact (H4 (Hh Hs)).
Qed.

Lemma position_after_adopted (i : Z) (s : Sys) :
  CInt.int_range i -> position_after i s = adopted_position i s.
Proof.
  intros Hi. unfold position_after, adopted_position.
  destruct (i >? -1) eqn:E; [|reflexivity].
  apply (nonneg_int_is_size i Hi).
  rewrite Z.gtb_ltb in E. apply Z.ltb_lt in E. lia.
Qed.

Lemma selectStream_index_file_name (B : Build) (i : Z) (s : Sys) :
  file_name (self (snd (selectStream_index B i s)))
  = match resolve (position_after i s) s with
    | Some p => strncpy (file_name (self s)) p (MAX_FILE_LEN B)
    | None => file_name (self s)
    end.
Proof.
  unfold position_after, resolve. rewrite selectStream_index_unfold.
  rewrite selectStream_path_self.
  destruct (path_at _ _ _); destruct (i >? -1); reflexivity.
Qed.

(** C6: [selectStream(index)] makes [index] the current position exactly
    when [index > -1]; a negative [index] leaves the position as it is;
    in both cases the enumerator is asked for the path at the resulting
    position and that path is selected: the call is
    [selectStream(path)] on it, so the file object is closed and opened
    again on that path (it stays closed when nothing is found or the
    open fails), the path is stored as the file name, and the stream
    returned is the file object, or null when nothing is found. *)
Theorem selectStream_index_position (B : Build) (s : Sys) (i : Z) :
  CInt.int_range i ->
  (i > -1 -> idx_pos (self (snd (selectStream_index B i s))) = i)
  /\ (i <= -1 ->
      idx_pos (self (snd (selectStream_index B i s))) = idx_pos (self s))
  /\ selectStream_index B i s
     = selectStream_path B (resolve (adopted_position i s) s)
         (emit (EvIdxAt (adopted_position i s)
                  (resolve (adopted_position i s) s))
            (on_self (set_idx_pos (adopted_position i s))
               (LOGI "selectStream SDFAT: %d" [ArgInt i] s)))
  /\ fst (selectStream_index B i s)
     = selection_stream (resolve (adopted_position i s) s)
  /\ opened (file (self (snd (selectStream_index B i s))))
     = selected_file (resolve (adopted_position i s) s) (card (world s))
  /\ file_name (self (snd (selectStream_index B i s)))
     = match resolve (adopted_position i s) s with
       | Some p => strncpy (file_name (self s)) p (MAX_FILE_LEN B)
       | None => file_name (self s)
       end
  /\ extends s (snd (selectStream_index B i s))
       ([EvLog LvlInfo "selectStream SDFAT: %d" [ArgInt i];
         EvIdxAt (adopted_position i s) (resolve (adopted_position i s) s)]
          ++ selection_events (resolve (adopted_position i s) s)
               (card (world s)))
  /\ (single_handle s ->
      handles (world (snd (selectStream_index B i s)))
      = selected_handles (resolve (adopted_position i s) s)
          (card (world s))).
Proof.
  intros Hi.
  pose proof (position_after_adopted i s Hi) as Ea.
  destruct (selectStream_index_outcome B i s) as [O1 [O2 [O3 O4]]].
  pose proof (selectStream_index_file_name B i s) as O5.
  rewrite Ea in O1, O2, O3, O4, O5.
  split; [|split; [|split; [|split; [|split; [|split; [|split]]]]]];
    try assumption.
  - intros Hpos. unfold resolve. rewrite selectStream_index_unfold.
    assert (E : (i >? -1) = true) by (rewrite Z.gtb_ltb; apply Z.ltb_lt; lia).
    rewrite E. rewrite (nonneg_int_is_size i Hi Hpos).
    destruct (selectStream_path_frame B
                (path_at (card (world s)) (idx (self s)) i)
                (emit (EvIdxAt i (path_at (card (world s)) (idx (self s)) i))
                   (on_self (set_idx_pos i)
                      (LOGI "selectStream SDFAT: %d" [ArgInt i] s))))
      as [_ [H _]].
    rewrite H. reflexivity.
  - intros Hneg. rewrite selectStream_index_unfold.
    assert (E : (i >? -1) = false) by (rewrite Z.gtb_ltb; apply Z.ltb_ge; lia).
    rewrite E.
    match goal with
    | |- idx_pos (self (snd (selectStream_path B ?p ?t))) = _ =>
        destruct (selectStream_path_frame B p t) as [_ [H _]]; rewrite H
    end.
    reflexivity.
  - unfold adopted_position, resolve. rewrite selectStream_index_unfold.
    destruct (i >? -1) eqn:E.
    + assert (Hpos : i > -1) by (rewrite Z.gtb_ltb in E; apply Z.ltb_lt in E; lia).
      rewrite (nonneg_int_is_size i Hi Hpos). reflexivity.
    + destruct s as [[c f fl ix ip fn ex sp fp si oc iss ics] w]. reflexivity.
Qed.

Lemma selectStream_index_position_witness :
  (idx_pos (self (snd (selectStream_index Demo.esp32 1 Demo.playing))) = 1
   /\ idx_pos (self (snd (selectStream_index Demo.esp32 (-1) Demo.playing)))
      = idx_pos (self Demo.playing))
  /\ (fst (selectStream_index Demo.esp32 1 Demo.playing) = addr_file
      /\ opened (file (self (snd (selectStream_index Demo.esp32 1
                                    Demo.playing)))) = Some "/c.mp3"
      /\ toStr (snd (selectStream_index Demo.esp32 1 Demo.playing))
         = Some "/c.mp3")
  /\ (fst (selectStream_index Demo.esp32 2 Demo.playing) = nullptr
      /\ opened (file (self (snd (selectStream_index Demo.esp32 2
                                    Demo.playing)))) = None).
Proof.
  assert (H1 : CInt.int_range 1) by (vm_compute; split; discriminate).
  assert (H2 : CInt.int_range 2) by (vm_compute; split; discriminate).
  assert (Hm : CInt.int_range (-1)) by (vm_compute; split; discriminate).
  destruct (selectStream_index_position Demo.esp32 Demo.playing 1 H1)
    as [P1 [_ [_ [S1 [F1 [N1 _]]]]]].
  destruct (selectStream_index_position Demo.esp32 Demo.playing (-1) Hm)
    as [_ [Pm _]].
  destruct (selectStream_index_position Demo.esp32 Demo.playing 2 H2)
    as [_ [_ [_ [S2 [F2 _]]]]].
  split; [split; [apply P1; lia | apply Pm; lia]|].
  split; [split; [exact S1 | split; [exact F1|]] | split; [exact S2 | exact F2]].
  unfold toStr. rewrite N1. reflexivity.
Defined.

(** ** Relative navigation *)

Lemma nextStream_unfold (B : Build) (offset : Z) (s : Sys) :
  nextStream B offset s
  = selectStream_index B
      (CInt.to_int (CInt.size_plus_int (idx_pos (self s)) offset))
      (LOGI "nextStream: %d" [ArgInt offset] s).
Proof. reflexivity. Qed.

Lemma LOGI_same_but_trace (fmt : string) (args : list LogArg) (s : Sys) :
  same_but_trace (LOGI fmt args s) s.
Proof. unfold same_but_trace. simpl. tauto. Qed.

(** C7: [nextStream(offset)] is [selectStream(idx_pos + offset)]: both
    return the same stream and leave the same object, card and handles
    behind ([nextStream] only writes one more log line first).  The sum
    is computed in [size_t] and handed over as an [int]; it is the sum of
    the integers whenever that sum is an [int].  The default offset is
    1. *)
Theorem nextStream_is_selectStream_index (B : Build) (s : Sys) (offset : Z) :
  (fst (nextStream B offset s)
   = fst (selectStream_index B
            (CInt.to_int (CInt.size_plus_int (idx_pos (self s)) offset)) s)
   /\ same_but_trace (snd (nextStream B offset s))
        (snd (selectStream_index B
                (CInt.to_int (CInt.size_plus_int (idx_pos (self s)) offset))
                s)))
  /\ (CInt.int_range (idx_pos (self s) + offset) ->
      CInt.to_int (CInt.size_plus_int (idx_pos (self s)) offset)
      = idx_pos (self s) + offset
      /\ fst (nextStream B offset s)
         = fst (selectStream_index B (idx_pos (self s) + offset) s)
      /\ same_but_trace (snd (nextStream B offset s))
           (snd (selectStream_index B (idx_pos (self s) + offset) s))
      /\ nextStream B offset s
         = selectStream_index B (idx_pos (self s) + offset)
             (LOGI "nextStream: %d" [ArgInt offset] s))
  /\ nextStream_default B s = nextStream B 1 s.
Proof.
  assert (G : fst (nextStream B offset s)
              = fst (selectStream_index B
                       (CInt.to_int
                          (CInt.size_plus_int (idx_pos (self s)) offset)) s)
              /\ same_but_trace (snd (nextStream B offset s))
                   (snd (selectStream_index B
                           (CInt.to_int
                              (CInt.size_plus_int (idx_pos (self s)) offset))
                           s))).
  { rewrite nextStream_unfold.
    apply selectStream_index_same_but_trace, LOGI_same_but_trace. }
  split; [exact G|]. split; [|reflexivity].
  intros Hr. pose proof (to_int_size_plus_int _ _ Hr) as E.
  split; [exact E|]. rewrite <- E.
  split; [apply G|]. split; [apply G|]. apply nextStream_unfold.
Qed.

Lemma nextStream_is_selectStream_index_witness :
  fst (nextStream Demo.esp32 1 Demo.playing)
  = fst (selectStream_index Demo.esp32 (idx_pos (self Demo.playing) + 1)
           Demo.playing)
  /\ same_but_trace (snd (nextStream Demo.esp32 1 Demo.playing))
       (snd (selectStream_index Demo.esp32 (idx_pos (self Demo.playing) + 1)
               Demo.playing)).
Proof.
  destruct (nextStream_is_selectStream_index Demo.esp32 Demo.playing 1)
    as [_ [H _]].
  destruct H as [_ [H1 [H2 _]]].
  - vm_compute. split; discriminate.
  - split; [exact H1 | exact H2].
Defined.



(** ** [begin()] *)

(** The outcomes of [begin()] on a session that has a configuration to
    mount with, or whose mount flag is set: when mounting fails,
    [begin()] logs the error and returns with the mount flag still clear,
    the enumerator and the position as they were; when mounting succeeds,
    or the flag was set already, the enumerator is given the configured
    root, extension and pattern and the position is 0.  In all these
    cases [begin()] returns. *)
Theorem begin_outcomes (s : Sys) :
  (forall cfg : SdSpiConfig,
      is_sd_setup (self s) = false -> p_cfg (self s) = Some cfg ->
      mountable (card (world s)) cfg = false ->
      exists s', begin s = Some s'
                 /\ is_sd_setup (self s') = false
                 /\ idx (self s') = idx (self s)
                 /\ idx_pos (self s') = idx_pos (self s)
                 /\ extends s s' [EvTrace LvlDebug; EvSdBegin cfg false;
                                  EvLog LvlError "sd.begin failed" []])
  /\ (forall cfg : SdSpiConfig,
         is_sd_setup (self s) = false -> p_cfg (self s) = Some cfg ->
         mountable (card (world s)) cfg = true ->
         exists s', begin s = Some s'
                    /\ is_sd_setup (self s') = true
                    /\ idx (self s')
                       = mkSDDirect true (start_path (self s))
                           (exension (self s)) (file_name_pattern (self s))
                    /\ idx_pos (self s') = 0
                    /\ extends s s'
                         [EvTrace LvlDebug; EvSdBegin cfg true;
                          EvIdxBegin (start_path (self s)) (exension (self s))
                            (file_name_pattern (self s))])
  /\ (is_sd_setup (self s) = true ->
      exists s', begin s = Some s'
                 /\ is_sd_setup (self s') = true
                 /\ idx (self s')
                    = mkSDDirect true (start_path (self s))
                        (exension (self s)) (file_name_pattern (self s))
                 /\ idx_pos (self s') = 0
                 /\ extends s s'
                      [EvTrace LvlDebug;
                       EvIdxBegin (start_path (self s)) (exension (self s))
                         (file_name_pattern (self s))]).
Proof.
  unfold extends. split; [|split].
  - intros cfg Hs Hp Hm. unfold begin, sd_begin. simpl.
    rewrite Hs, Hp. simpl. rewrite Hm. simpl.
    eexists. split; [reflexivity|]. simpl.
    rewrite <- !app_assoc. auto.
  - intros cfg Hs Hp Hm. unfold begin, sd_begin. simpl.
    rewrite Hs, Hp. simpl. rewrite Hm. simpl.
    eexists. split; [reflexivity|]. simpl.
    rewrite <- !app_assoc. auto.
  - intros Hs. unfold begin. simpl. rewrite Hs. simpl.
    eexists. split; [reflexivity|]. simpl.
    rewrite <- !app_assoc. auto.
Qed.

Lemma begin_outcomes_witness :
  (exists s', begin Demo.constructed_no_card = Some s'
              /\ is_sd_setup (self s') = false
              /\ idx (self s') = idx (self Demo.constructed_no_card))
  /\ (exists s', begin Demo.constructed = Some s'
                 /\ is_sd_setup (self s') = true
                 /\ idx_pos (self s') = 0)
  /\ (exists s', begin Demo.guest = Some s'
                 /\ is_sd_setup (self s') = true
                 /\ idx_pos (self s') = 0).
Proof.
  split; [|split].
  - destruct (begin_outcomes Demo.constructed_no_card) as [H _].
    destruct (H (mkSdSpiConfig 13 1 10000000) eq_refl eq_refl eq_refl)
      as [s' [E [H1 [H2 _]]]].
    exists s'. auto.
  - destruct (begin_outcomes Demo.constructed) as [_ [H _]].
    destruct (H (mkSdSpiConfig 13 1 10000000) eq_refl eq_refl eq_refl)
      as [s' [E [H1 [_ [H3 _]]]]].
    exists s'. auto.
  - destruct (begin_outcomes Demo.guest) as [_ [_ H]].
    destruct (H eq_refl) as [s' [E [H1 [_ [H3 _]]]]].
    exists s'. auto.
Defined.

(** C8, where the code departs from it: a session constructed on an open
    file system, begun, used and ended, has its mount flag clear and no
    configuration, while the file system it was given is still mounted.
    [begin()] on it does not initialise the enumerator nor reset the
    position, and does not return with an error logged either: it
    evaluates [*p_cfg] with a null [p_cfg] and has no defined outcome. *)
Theorem begin_after_end_on_open_fs :
  exists s : Sys,
    run Demo.esp32 [CallBegin; CallSelectPath (Some "/a.mp3"); CallEnd]
      Demo.guest = Some s
    /\ mounted (sd (self s)) = true
    /\ is_sd_setup (self s) = false
    /\ p_cfg (self s) = None
    /\ begin s = None.
Proof.
  eexists. split; [reflexivity|].
  split; [reflexivity|]. split; [reflexivity|]. split; reflexivity.
Qed.

(** ** What one call does to the trace and to the configuration *)

Lemma same_configuration_trans (a b c : AudioSourceSDFAT) :
  same_configuration a b -> same_configuration b c -> same_configuration a c.
Proof.
  unfold same_configuration. intros H1 H2.
  repeat match goal with H : _ /\ _ |- _ => destruct H end.
  repeat split; congruence.
Qed.

Lemma selectStream_path_effect (B : Build) (path : cstr) (s : Sys) :
  exists evs, extends s (snd (selectStream_path B path s)) evs
              /\ existsb is_sd_end_event evs = false.
Proof.
  unfold extends. destruct path as [p|].
  - destruct (openable (card (world s)) p) eqn:E.
    + rewrite (selectStream_path_open_succeeds B s p E). simpl.
      rewrite file_close_trace, <- !app_assoc. simpl.
      eexists. split; reflexivity.
    + rewrite (selectStream_path_open_fails B s p E). simpl.
      rewrite file_close_trace, <- !app_assoc. simpl.
      eexists. split; reflexivity.
  - rewrite selectStream_path_null. simpl.
    rewrite file_close_trace, <- !app_assoc. simpl.
    eexists. split; reflexivity.
Qed.

Lemma selectStream_index_effect (B : Build) (index : Z) (s : Sys) :
  same_configuration (self s) (self (snd (selectStream_index B index s)))
  /\ exists evs, extends s (snd (selectStream_index B index s)) evs
                 /\ existsb is_sd_end_event evs = false.
Proof.
  rewrite selectStream_index_unfold.
  destruct (index >? -1);
    match goal with
    | |- context [selectStream_path B ?p ?t] =>
        destruct (selectStream_path_frame B p t) as [Hc _];
        destruct (selectStream_path_effect B p t) as [evs [He Hn]]
    end;
    (split;
     [ eapply same_configuration_trans; [|exact Hc];
       unfold same_configuration; simpl; tauto
     | eexists (_ :: _ :: evs); split;
       [ unfold extends in *; rewrite He; simpl;
         rewrite <- !app_assoc; reflexivity
       | simpl; exact Hn ] ]).
Qed.

Lemma nextStream_effect (B : Build) (offset : Z) (s : Sys) :
  same_configuration (self s) (self (snd (nextStream B offset s)))
  /\ exists evs, extends s (snd (nextStream B offset s)) evs
                 /\ existsb is_sd_end_event evs = false.
Proof.
  rewrite nextStream_unfold.
  match goal with
  | |- context [selectStream_index B ?i ?t] =>
      destruct (selectStream_index_effect B i t) as [Hc [evs [He Hn]]]
  end.
  split; [exact Hc|].
  exists (EvLog LvlInfo "nextStream: %d" [ArgInt offset] :: evs). split.
  - unfold extends in *. rewrite He. simpl. rewrite <- app_assoc. reflexivity.
  - simpl. exact Hn.
Qed.

Lemma begin_effect (s s' : Sys) :
  begin s = Some s' ->
  is_close_sd (self s') = is_close_sd (self s)
  /\ p_cfg (self s') = p_cfg (self s)
  /\ file (self s') = file (self s)
  /\ handles (world s') = handles (world s)
  /\ (p_cfg (self s) = None -> sd (self s') = sd (self s))
  /\ exists evs, extends s s' evs
                 /\ existsb is_sd_end_event evs = false
                 /\ (is_sd_setup (self s') = true ->
                     is_sd_setup (self s) = true
                     \/ exists cfg, In (EvSdBegin cfg true) evs).
Proof.
  unfold begin, sd_begin, extends. simpl.
  destruct (is_sd_setup (self s)) eqn:Hs; simpl.
  - intros H. inversion H; subst; clear H. simpl.
    repeat split. eexists. rewrite <- !app_assoc. simpl.
    split; [reflexivity|]. split; [reflexivity|]. intros _. now left.
  - destruct (p_cfg (self s)) as [cfg|] eqn:Hp; [|discriminate].
    destruct (mountable (card (world s)) cfg) eqn:Hm; simpl;
      intros H; inversion H; subst; clear H; simpl.
    + repeat split; try discriminate; try assumption.
      eexists. rewrite <- !app_assoc. simpl.
      split; [reflexivity|]. split; [reflexivity|].
      intros _. right. exists cfg. simpl. tauto.
    + repeat split; try discriminate; try assumption.
      eexists. rewrite <- !app_assoc. simpl.
      split; [reflexivity|]. split; [reflexivity|].
      intros H. rewrite Hs in H. discriminate H.
Qed.

Lemma end_effect (B : Build) (s : Sys) :
  is_close_sd (self (end_ B s)) = is_close_sd (self s)
  /\ p_cfg (self (end_ B s)) = p_cfg (self s)
  /\ is_sd_setup (self (end_ B s)) = false
  /\ (is_close_sd (self s) = false -> sd (self (end_ B s)) = sd (self s)).
Proof.
  unfold end_. destruct (is_sd_setup (self s)) eqn:Hs; simpl.
  - destruct (ESP32 B); [destruct (is_close_sd (self s)) eqn:Hc|]; simpl;
      rewrite ?Hc; repeat split; try reflexivity; discriminate.
  - repeat split; assumption.
Qed.

Lemma nextStream_outcome (B : Build) (offset : Z) (s : Sys) :
  fst (nextStream B offset s)
  = selection_stream (resolve (position_after (next_index offset s) s) s)
  /\ opened (file (self (snd (nextStream B offset s))))
     = selected_file (resolve (position_after (next_index offset s) s) s)
         (card (world s))
  /\ extends s (snd (nextStream B offset s))
       ([EvLog LvlInfo "nextStream: %d" [ArgInt offset];
         EvLog LvlInfo "selectStream SDFAT: %d"
           [ArgInt (next_index offset s)];
         EvIdxAt (position_after (next_index offset s) s)
           (resolve (position_after (next_index offset s) s) s)]
          ++ selection_events
               (resolve (position_after (next_index offset s) s) s)
               (card (world s)))
  /\ (single_handle s ->
      handles (world (snd (nextStream B offset s)))
      = selected_handles
          (resolve (position_after (next_index offset s) s) s)
          (card (world s))).
Proof.
  unfold next_index. rewrite nextStream_unfold.
  match goal with
  | |- context [selectStream_index B ?k ?t] =>
      destruct (selectStream_index_outcome B k t) as [H1 [H2 [H3 H4]]]
  end.
  split; [exact H1|]. split; [exact H2|]. split.
  - unfold extends in *. rewrite H3. simpl. rewrite <- !app_assoc.
    reflexivity.
  - intros Hs. exact (H4 Hs).
Qed.

(** ** Sequences of calls *)

Lemma run_app (B : Build) (pre post : list Call) (s : Sys) :
  run B (pre ++ post) s
  = match run B pre s with Some m => run B post m | None => None end.
Proof.
  revert s. induction pre as [|c pre IH]; intros s; simpl; [reflexivity|].
  destruct (exec B c s); [apply IH | reflexivity].
Qed.

Lemma exec_single_handle (B : Build) (c : Call) (s s' : Sys) :
  exec B c s = Some s' -> single_handle s -> single_handle s'.
Proof.
  unfold single_handle.
  destruct c; simpl; intros H Hs;
    [ destruct (begin_effect s s' H) as [_ [_ [Hf [Hh _]]]];
      now rewrite Hf, Hh
    | injection H as <- .. ].
  - now rewrite end_file, end_handles.
  - rewrite nextStream_unfold, selectStream_index_unfold.
    apply selectStream_path_single_handle. unfold single_handle.
    match goal with |- context [if ?b then _ else _] => destruct b end;
      simpl; exact Hs.
  - rewrite selectStream_index_unfold.
    apply selectStream_path_single_handle. unfold single_handle.
    match goal with |- context [if ?b then _ else _] => destruct b end;
      simpl; exact Hs.
  - now apply selectStream_path_single_handle.
  - exact Hs.
  - exact Hs.
  - exact Hs.
Qed.

Lemma run_single_handle (B : Build) (calls : list Call) :
  forall s s', run B calls s = Some s' -> single_handle s -> single_handle s'.
Proof.
  induction calls as [|c rest IH]; intros s s' H Hs; simpl in H.
  - inversion H; subst. exact Hs.
  - destruct (exec B c s) as [m|] eqn:E; [|discriminate].
    apply (IH m s' H). exact (exec_single_handle B c s m E Hs).
Qed.

Lemma run_navigation_total (B : Build) (calls : list Call) :
  forall s, forallb is_navigation calls = true ->
            exists s', run B calls s = Some s'.
Proof.
  induction calls as [|c rest IH]; intros s H; simpl in *.
  - now exists s.
  - apply andb_true_iff in H. destruct H as [Hc Hr].
    destruct c; simpl in Hc; try discriminate; simpl; now apply IH.
Qed.

Lemma single_handle_le (s : Sys) :
  single_handle s -> (handles (world s) <= 1)%nat.
Proof.
  unfold single_handle. intros H. rewrite H.
  destruct (isOpen (file (self s))); lia.
Qed.

(** C3: along every sequence of calls that runs, the handles held on the
    card are at most one (the one of the member [file]) at the end of
    each call of the sequence;
    a sequence of stream selections always runs to its end; and every
    [selectStream(path)] first closes the file object, whatever the path
    and whatever the outcome of the open: the close is the first entry
    the call adds to the trace, no handle is held once it is done, and
    for a null path no open follows.  After the call the file object
    holds a handle on the new path if that opened and none otherwise, so
    the handle held before is never kept: for a null path and for a
    failed open nothing is open.  The same holds of [selectStream(index)]
    and [nextStream(offset)], whose trace has the close before the
    open. *)
Theorem single_handle_invariant (B : Build) (calls : list Call) (s : Sys) :
  single_handle s ->
  (forall pre post s',
      calls = pre ++ post -> run B calls s = Some s' ->
      exists m, run B pre s = Some m
                /\ single_handle m /\ (handles (world m) <= 1)%nat)
  /\ (forallb is_navigation calls = true ->
      exists s', run B calls s = Some s'
                 /\ (handles (world s') <= 1)%nat)
  /\ (forall path : cstr,
         handles (world (file_close s)) = 0%nat
         /\ isOpen (file (self (file_close s))) = false
         /\ exists evs,
             extends s (snd (selectStream_path B path s)) (EvFileClose :: evs)
             /\ (path = None -> existsb is_file_open_event evs = false))
  /\ (forall path : cstr,
         opened (file (self (snd (selectStream_path B path s))))
         = selected_file path (card (world s))
         /\ handles (world (snd (selectStream_path B path s)))
            = selected_handles path (card (world s))
         /\ extends s (snd (selectStream_path B path s))
              (selection_events path (card (world s))))
  /\ (forall i : Z,
         opened (file (self (snd (selectStream_index B i s))))
         = selected_file (resolve (position_after i s) s) (card (world s))
         /\ handles (world (snd (selectStream_index B i s)))
            = selected_handles (resolve (position_after i s) s)
                (card (world s))
         /\ extends s (snd (selectStream_index B i s))
              ([EvLog LvlInfo "selectStream SDFAT: %d" [ArgInt i];
                EvIdxAt (position_after i s)
                  (resolve (position_after i s) s)]
                 ++ selection_events (resolve (position_after i s) s)
                      (card (world s))))
  /\ (forall offset : Z,
         opened (file (self (snd (nextStream B offset s))))
         = selected_file
             (resolve (position_after (next_index offset s) s) s)
             (card (world s))
         /\ handles (world (snd (nextStream B offset s)))
            = selected_handles
                (resolve (position_after (next_index offset s) s) s)
                (card (world s))
         /\ extends s (snd (nextStream B offset s))
              ([EvLog LvlInfo "nextStream: %d" [ArgInt offset];
                EvLog LvlInfo "selectStream SDFAT: %d"
                  [ArgInt (next_index offset s)];
                EvIdxAt (position_after (next_index offset s) s)
                  (resolve (position_after (next_index offset s) s) s)]
                 ++ selection_events
                      (resolve (position_after (next_index offset s) s) s)
                      (card (world s)))).
Proof.
  intros Hs. split; [|split; [|split; [|split; [|split]]]].
  - intros pre post s' Hcalls Hrun. subst calls.
    rewrite run_app in Hrun.
    destruct (run B pre s) as [m|] eqn:Hpre; [|discriminate].
    pose proof (run_single_handle B pre s m Hpre Hs) as Hm.
    exists m. split; [reflexivity|].
    split; [exact Hm | now apply single_handle_le].
  - intros Hnav. destruct (run_navigation_total B calls s Hnav) as [s' Hrun].
    exists s'. split; [exact Hrun|].
    apply single_handle_le. exact (run_single_handle B calls s s' Hrun Hs).
  - intros path. destruct (file_close_single_handle s Hs) as [H0 Hc].
    split; [exact H0|]. split; [exact Hc|].
    apply selectStream_path_closes_first.
  - intros path.
    destruct (selectStream_path_outcome B path s) as [_ [H2 [H3 H4]]].
    split; [exact H2|]. split; [exact (H4 Hs) | exact H3].
  - intros i.
    destruct (selectStream_index_outcome B i s) as [_ [H2 [H3 H4]]].
    split; [exact H2|]. split; [exact (H4 Hs) | exact H3].
  - intros offset.
    destruct (nextStream_outcome B offset s) as [_ [H2 [H3 H4]]].
    split; [exact H2|]. split; [exact (H4 Hs) | exact H3].
Qed.

Lemma single_handle_invariant_witness :
  (exists s',
      run Demo.esp32
        [CallNextStream 1; CallSelectPath (Some "/missing.mp3");
         CallSelectIndex 0; CallSelectPath None; CallNextStream (-1)]
        Demo.playing = Some s'
      /\ (handles (world s') <= 1)%nat)
  /\ (opened (file (self Demo.playing)) = Some "/a.mp3"
      /\ opened (file (self (snd (selectStream_path Demo.esp32 None
                                    Demo.playing)))) = None
      /\ handles (world (snd (selectStream_path Demo.esp32 None
                                Demo.playing))) = 0%nat)
  /\ (opened (file (self (snd (selectStream_path Demo.esp32
                                 (Some "/missing.mp3") Demo.playing)))) = None
      /\ handles (world (snd (selectStream_path Demo.esp32
                                (Some "/missing.mp3") Demo.playing))) = 0%nat)
  /\ (opened (file (self (snd (nextStream Demo.esp32 1 Demo.playing))))
      = Some "/c.mp3"
      /\ handles (world (snd (nextStream Demo.esp32 1 Demo.playing)))
         = 1%nat).
Proof.
  assert (H : single_handle Demo.playing) by reflexivity.
  destruct (single_handle_invariant Demo.esp32
              [CallNextStream 1; CallSelectPath (Some "/missing.mp3");
               CallSelectIndex 0; CallSelectPath None; CallNextStream (-1)]
              Demo.playing H) as [_ [Hrun [_ [Hpath [_ Hnext]]]]].
  split; [apply Hrun; reflexivity|].
  destruct (Hpath None) as [N1 [N2 _]].
  destruct (Hpath (Some "/missing.mp3")) as [M1 [M2 _]].
  destruct (Hnext 1) as [X1 [X2 _]].
  split; [split; [reflexivity | split; [exact N1 | exact N2]]|].
  split; [split; [exact M1 | exact M2] | split; [exact X1 | exact X2]].
Defined.

(** ** Who unmounts the file system *)

Lemma exec_effect (B : Build) (c : Call) (s s' : Sys) :
  exec B c s = Some s' ->
  is_close_sd (self s') = is_close_sd (self s)
  /\ p_cfg (self s') = p_cfg (self s)
  /\ (is_close_sd (self s) = false -> p_cfg (self s) = None ->
      sd (self s') = sd (self s))
  /\ exists evs,
      extends s s' evs
      /\ (is_close_sd (self s) = false -> existsb is_sd_end_event evs = false)
      /\ (is_sd_setup (self s') = true ->
          is_sd_setup (self s) = true
          \/ exists cfg, In (EvSdBegin cfg true) evs).
Proof.
  destruct c; simpl; intros H; [ | injection H as <- .. ].
  - destruct (begin_effect s s' H) as [H1 [H2 [_ [_ [H3 [evs [He [Hn Hb]]]]]]]].
    repeat split; auto. exists evs. auto.
  - destruct (end_effect B s) as [H1 [H2 [H3 H4]]].
    repeat split; auto.
    destruct (end_extends B s) as [evs [He [_ [_ Hn]]]].
    exists evs. split; [exact He|]. split.
    + intros Hc. destruct (existsb is_sd_end_event evs); [|reflexivity].
      destruct (Hn eq_refl) as [_ [Hc' _]]. congruence.
    + intros Hs. rewrite H3 in Hs. discriminate Hs.
  - destruct (nextStream_effect B offset s) as [Hc [evs [He Hn]]].
    unfold same_configuration in Hc.
    repeat match goal with H : _ /\ _ |- _ => destruct H end.
    repeat split; try congruence. exists evs.
    split; [exact He|]. split; [auto|]. intros Hs. left. congruence.
  - destruct (selectStream_index_effect B i s) as [Hc [evs [He Hn]]].
    unfold same_configuration in Hc.
    repeat match goal with H : _ /\ _ |- _ => destruct H end.
    repeat split; try congruence. exists evs.
    split; [exact He|]. split; [auto|]. intros Hs. left. congruence.
  - destruct (selectStream_path_frame B path s) as [Hc _].
    destruct (selectStream_path_effect B path s) as [evs [He Hn]].
    unfold same_configuration in Hc.
    repeat match goal with H : _ /\ _ |- _ => destruct H end.
    repeat split; try congruence. exists evs.
    split; [exact He|]. split; [auto|]. intros Hs. left. congruence.
  - repeat split. exists []. unfold extends. simpl. rewrite app_nil_r. auto.
  - repeat split. exists []. unfold extends. simpl. rewrite app_nil_r. auto.
  - repeat split. exists []. unfold extends. simpl. rewrite app_nil_r. auto.
Qed.

Lemma exec_guest (B : Build) (fs : AudioFs) (w : World) (c : Call) (s s' : Sys) :
  exec B c s = Some s' -> guest_session fs w s -> guest_session fs w s'.
Proof.
  intros He [Hc [Hp [Hsd [evs0 [Ht Hn0]]]]].
  destruct (exec_effect B c s s' He) as [H1 [H2 [H3 [evs [Hx [Hn _]]]]]].
  unfold guest_session. repeat split; try congruence.
  - rewrite <- Hsd. now apply H3.
  - exists (evs0 ++ evs). split.
    + unfold extends in Hx. rewrite Hx, Ht, app_assoc. reflexivity.
    + rewrite existsb_app, Hn0, (Hn Hc). reflexivity.
Qed.

Lemma run_guest (B : Build) (fs : AudioFs) (w : World) (calls : list Call) :
  forall s s', run B calls s = Some s' ->
               guest_session fs w s -> guest_session fs w s'.
Proof.
  induction calls as [|c rest IH]; intros s s' H Hg; simpl in H.
  - injection H as <-. exact Hg.
  - destruct (exec B c s) as [m|] eqn:E; [|discriminate].
    apply (IH m s' H). exact (exec_guest B fs w c s m E Hg).
Qed.

Lemma exec_owner (B : Build) (w : World) (c : Call) (s s' : Sys) :
  exec B c s = Some s' -> owner_session w s -> owner_session w s'.
Proof.
  intros He [Hc [evs0 [Ht Hb0]]].
  destruct (exec_effect B c s s' He) as [H1 [_ [_ [evs [Hx [_ Hb]]]]]].
  unfold owner_session. split; [congruence|].
  exists (evs0 ++ evs). split.
  - unfold extends in Hx. rewrite Hx, Ht, app_assoc. reflexivity.
  - intros Hs. destruct (Hb Hs) as [Hold | [cfg Hin]].
    + destruct (Hb0 Hold) as [cfg Hin]. exists cfg.
      apply in_or_app. now left.
    + exists cfg. apply in_or_app. now right.
Qed.

Lemma run_owner (B : Build) (w : World) (calls : list Call) :
  forall s s', run B calls s = Some s' ->
               owner_session w s -> owner_session w s'.
Proof.
  induction calls as [|c rest IH]; intros s s' H Hg; simpl in H.
  - injection H as <-. exact Hg.
  - destruct (exec B c s) as [m|] eqn:E; [|discriminate].
    apply (IH m s' H). exact (exec_owner B w c s m E Hg).
Qed.

Lemma ctor_fs_guest (raw : list ascii) (fs : AudioFs) (sp ext : cstr)
    (si : bool) (w : World) :
  guest_session fs w (ctor_fs raw fs sp ext si w).
Proof.
  unfold guest_session. simpl. repeat split.
  exists [EvTrace LvlDebug]. split; reflexivity.
Qed.

Lemma ctor_owner (B : Build) (raw : list ascii) (sp ext : cstr)
    (cs mhz mode : Z) (si : bool) (w : World) :
  owner_session w (ctor B raw sp ext cs mhz mode si w).
Proof.
  unfold owner_session. simpl. split; [reflexivity|].
  eexists. rewrite <- !app_assoc. simpl. split; [reflexivity|discriminate].
Qed.

Lemma ctor_cfg_owner (raw : list ascii) (sp ext : cstr)
    (config : SdSpiConfig) (si : bool) (w : World) :
  owner_session w (ctor_cfg raw sp ext config si w).
Proof.
  unfold owner_session. simpl. split; [reflexivity|].
  exists [EvTrace LvlDebug]. split; [reflexivity|discriminate].
Qed.

Lemma end_unmounts (B : Build) (s : Sys) :
  ESP32 B = true -> is_close_sd (self s) = true ->
  is_sd_setup (self s) = true ->
  mounted (sd (self (end_ B s))) = false
  /\ extends s (end_ B s) [EvTrace LvlInfo; EvSdEnd].
Proof.
  intros He Hc Hs. unfold end_, extends. rewrite Hs. simpl.
  rewrite He, Hc. simpl. rewrite <- app_assoc. split; reflexivity.
Qed.

Lemma dtor_guest (B : Build) (s : Sys) :
  is_close_sd (self s) = false ->
  exists evs, trace (dtor B s) = trace (world s) ++ evs
              /\ existsb is_sd_end_event evs = false.
Proof.
  intros Hc. unfold dtor.
  destruct (end_extends B s) as [evs [He [_ [_ Hn]]]].
  assert (Hno : existsb is_sd_end_event evs = false).
  { destruct (existsb is_sd_end_event evs); [|reflexivity].
    destruct (Hn eq_refl) as [_ [Hc' _]]. congruence. }
  unfold extends in He.
  destruct (owns_cfg (self (end_ B s))); simpl.
  - exists (evs ++ [EvDeleteCfg]). split.
    + rewrite He, app_assoc. reflexivity.
    + rewrite existsb_app, Hno. reflexivity.
  - exists evs. split; [exact He | exact Hno].
Qed.

(** C5: a session constructed on an open file system never unmounts it:
    after any sequence of calls the member [sd] is still the file system
    that was given, no [sd.end()] was called, and neither [end()] nor the
    destructor calls it.  Whenever [end()] does unmount, the session is
    one that closes its file system and has its mount flag set; the
    sessions of the two other constructors are of that kind, their mount
    flag is set only by a successful [sd.begin] of their own, and on the
    ESP32 their [end()] then unmounts. *)
Theorem guest_fs_never_unmounted (B : Build) (raw : list ascii)
    (fs : AudioFs) (startFilePath ext : cstr) (setupIndex : bool)
    (w : World) (calls : list Call) (s' : Sys) :
  run B calls (ctor_fs raw fs startFilePath ext setupIndex w) = Some s' ->
  (sd (self s') = fs
   /\ exists evs, trace (world s') = trace w ++ evs
                  /\ existsb is_sd_end_event evs = false)
  /\ (sd (self (end_ B s')) = fs
      /\ exists evs, extends s' (end_ B s') evs
                     /\ existsb is_sd_end_event evs = false)
  /\ (exists evs, trace (dtor B s') = trace (world s') ++ evs
                  /\ existsb is_sd_end_event evs = false)
  /\ (forall (s : Sys) (evs : list Event),
         extends s (end_ B s) evs -> existsb is_sd_end_event evs = true ->
         ESP32 B = true /\ is_close_sd (self s) = true
         /\ is_sd_setup (self s) = true)
  /\ (forall (t0 t : Sys) (w0 : World) (calls0 : list Call),
         (exists raw0 sp0 ext0 cs mhz mode si0,
             t0 = ctor B raw0 sp0 ext0 cs mhz mode si0 w0)
         \/ (exists raw0 sp0 ext0 config si0,
                t0 = ctor_cfg raw0 sp0 ext0 config si0 w0) ->
         run B calls0 t0 = Some t ->
         owner_session w0 t
         /\ (ESP32 B = true -> is_sd_setup (self t) = true ->
             mounted (sd (self (end_ B t))) = false
             /\ extends t (end_ B t) [EvTrace LvlInfo; EvSdEnd])).
Proof.
  intros Hrun.
  pose proof (run_guest B fs w calls _ s' Hrun
                (ctor_fs_guest raw fs startFilePath ext setupIndex w)) as Hg.
  destruct Hg as [Hc [Hp [Hsd Htr]]].
  split; [split; assumption|]. split; [|split; [|split]].
  - destruct (end_effect B s') as [_ [_ [_ H4]]]. split.
    + rewrite (H4 Hc). exact Hsd.
    + destruct (end_extends B s') as [evs [He [_ [_ Hn]]]].
      exists evs. split; [exact He|].
      destruct (existsb is_sd_end_event evs); [|reflexivity].
      destruct (Hn eq_refl) as [_ [Hc' _]]. congruence.
  - now apply dtor_guest.
  - intros s evs He Hev.
    destruct (end_extends B s) as [evs' [He' [_ [_ Hn]]]].
    unfold extends in He, He'. rewrite He in He'.
    apply app_inv_head in He'. subst evs'. exact (Hn Hev).
  - intros t0 t w0 calls0 Hctor Hrun0.
    assert (Ho : owner_session w0 t).
    { apply (run_owner B w0 calls0 t0 t Hrun0).
      destruct Hctor as [[r [sp [e [cs [mhz [mode [si E]]]]]]]
                        | [r [sp [e [config [si E]]]]]]; subst t0.
      - apply ctor_owner.
      - apply ctor_cfg_owner. }
    split; [exact Ho|]. intros He Hs.
    destruct Ho as [Hclose _]. now apply end_unmounts.
Qed.

Lemma guest_fs_never_unmounted_witness :
  exists s',
    run Demo.esp32
      [CallBegin; CallNextStream 1; CallSelectPath (Some "/a.mp3"); CallEnd]
      Demo.guest = Some s'
    /\ sd (self s') = {| mounted := true |}
    /\ sd (self (end_ Demo.esp32 s')) = {| mounted := true |}.
Proof.
  eexists. split; [reflexivity|].
  destruct (guest_fs_never_unmounted Demo.esp32 Demo.raw
              {| mounted := true |} (Some "/") (Some ".mp3") true
              (fresh_world Demo.sd_card)
              [CallBegin; CallNextStream 1; CallSelectPath (Some "/a.mp3");
               CallEnd] _ eq_refl) as [[H1 _] [[H2 _] _]].
  split; [exact H1 | exact H2].
Defined.

(** * Further properties of the class *)

(** ** More on C strings *)

Lemma strncpy_cells_length (p : string) :
  forall n : nat, List.length (strncpy_cells p n) = n.
Proof.
  intros n. revert p. induction n as [|n IH]; intros p; [reflexivity|].
  destruct p as [|c rest]; simpl; now rewrite IH.
Qed.

Lemma skipn_strncpy (dest : list ascii) (p : string) (n : nat) :
  skipn n (strncpy dest p n) = skipn n dest.
Proof.
  unfold strncpy. rewrite skipn_app, strncpy_cells_length.
  rewrite skipn_all2 by (rewrite strncpy_cells_length; lia).
  now rewrite Nat.sub_diag.
Qed.

Lemma strncpy_overwrites (dest : list ascii) (p q : string) (n : nat) :
  strncpy (strncpy dest p n) q n = strncpy dest q n.
Proof. unfold strncpy at 1 3. now rewrite skipn_strncpy. Qed.

Lemma c_str_unterminated (p : string) :
  forall n : nat,
    no_nul p = true -> (n <= String.length p)%nat ->
    c_str (strncpy_cells p n) = None.
Proof.
  induction p as [|c rest IH]; intros n Hnul Hlen.
  - simpl in Hlen. assert (n = 0%nat) by lia. subst n. reflexivity.
  - destruct n as [|n']; [reflexivity|].
    simpl in Hnul. apply andb_true_iff in Hnul. destruct Hnul as [Hc Hrest].
    apply negb_true_iff in Hc. simpl. rewrite Hc.
    rewrite IH; [reflexivity | assumption | simpl in Hlen; lia].
Qed.

(** ** A selection that opens *)

(** X1: when the file opens, [selectStream(path)] returns the address of
    the file object, which then holds the handle on that path, the only
    handle held; the call adds a close, the open and one information line
    to the trace and no error line, and [toStr()] gives the path back
    when it fits the name array. *)
Theorem selectStream_path_opens (B : Build) (s : Sys) (p : string) :
  openable (card (world s)) p = true -> single_handle s ->
  fst (selectStream_path B (Some p) s) = addr_file
  /\ opened (file (self (snd (selectStream_path B (Some p) s)))) = Some p
  /\ handles (world (snd (selectStream_path B (Some p) s))) = 1%nat
  /\ extends s (snd (selectStream_path B (Some p) s))
       [EvFileClose; EvFileOpen p true;
        EvLog LvlInfo "-> selectStream: %s" [ArgStr (Some p)]]
  /\ (no_nul p = true -> (String.length p < MAX_FILE_LEN B)%nat ->
      toStr (snd (selectStream_path B (Some p) s)) = Some p).
Proof.
  intros Hopen Hs. destruct (file_close_single_handle s Hs) as [H0 _].
  split; [|split; [|split; [|split]]].
  - now rewrite (selectStream_path_open_succeeds B s p Hopen).
  - now rewrite (selectStream_path_open_succeeds B s p Hopen).
  - rewrite (selectStream_path_open_succeeds B s p Hopen). simpl.
    now rewrite H0.
  - rewrite (selectStream_path_open_succeeds B s p Hopen).
    unfold extends. simpl. rewrite file_close_trace, <- !app_assoc.
    reflexivity.
  - intros Hnul Hlen. unfold toStr. rewrite selectStream_path_name.
    now apply c_str_strncpy.
Qed.

Lemma selectStream_path_opens_witness :
  opened (file (self (snd (selectStream_path Demo.esp32 (Some "/c.mp3")
                            Demo.playing)))) = Some "/c.mp3"
  /\ handles (world (snd (selectStream_path Demo.esp32 (Some "/c.mp3")
                            Demo.playing))) = 1%nat.
Proof.
  destruct (selectStream_path_opens Demo.esp32 Demo.playing "/c.mp3"
              eq_refl eq_refl) as [_ [H1 [H2 _]]].
  split; [exact H1 | exact H2].
Defined.

(** ** Selecting a position *)

Lemma selectStream_index_adopted (B : Build) (s : Sys) (i : Z) :
  CInt.int_range i ->
  selectStream_index B i s
  = selectStream_path B (resolve (adopted_position i s) s)
      (emit (EvIdxAt (adopted_position i s)
               (resolve (adopted_position i s) s))
         (on_self (set_idx_pos (adopted_position i s))
            (LOGI "selectStream SDFAT: %d" [ArgInt i] s))).
Proof.
  intros Hi. unfold adopted_position, resolve.
  rewrite selectStream_index_unfold. destruct (i >? -1) eqn:E.
  - assert (Hpos : i > -1)
      by (rewrite Z.gtb_ltb in E; apply Z.ltb_lt in E; lia).
    rewrite (nonneg_int_is_size i Hi Hpos). reflexivity.
  - destruct s as [[c f fl ix ip fn ex sp fp si oc iss ics] w]. reflexivity.
Qed.

Lemma selectStream_index_pos (B : Build) (s : Sys) (i : Z) :
  CInt.int_range i ->
  idx_pos (self (snd (selectStream_index B i s))) = adopted_position i s.
Proof.
  intros Hi. rewrite (selectStream_index_adopted B s i Hi).
  match goal with
  | |- idx_pos (self (snd (selectStream_path B ?p ?t))) = _ =>
      destruct (selectStream_path_frame B p t) as [_ [H _]]; rewrite H
  end.
  reflexivity.
Qed.

(** X2: when the enumerator finds nothing at the position,
    [selectStream(index)] returns no stream and logs an error, yet the
    position is adopted all the same (for [index > -1]); the file that
    was open is closed, no open is attempted and the stored file name is
    left as it was. *)
Theorem selectStream_index_not_found (B : Build) (s : Sys) (i : Z) :
  CInt.int_range i -> resolve (adopted_position i s) s = None ->
  fst (selectStream_index B i s) = nullptr
  /\ idx_pos (self (snd (selectStream_index B i s))) = adopted_position i s
  /\ isOpen (file (self (snd (selectStream_index B i s)))) = false
  /\ file_name (self (snd (selectStream_index B i s))) = file_name (self s)
  /\ extends s (snd (selectStream_index B i s))
       [EvLog LvlInfo "selectStream SDFAT: %d" [ArgInt i];
        EvIdxAt (adopted_position i s) None;
        EvFileClose; EvLog LvlError "Filename is null" []].
Proof.
  intros Hi Hnone.
  split; [|split; [apply (selectStream_index_pos B s i Hi)|]];
    rewrite (selectStream_index_adopted B s i Hi), Hnone,
      selectStream_path_null.
  - reflexivity.
  - simpl. split; [|split].
    + unfold isOpen. now rewrite file_close_closed.
    + now rewrite file_close_frame.
    + unfold extends. simpl. rewrite file_close_trace. simpl.
      rewrite <- !app_assoc. reflexivity.
Qed.

Lemma selectStream_index_not_found_witness :
  fst (selectStream_index Demo.esp32 2 Demo.playing) = nullptr
  /\ idx_pos (self (snd (selectStream_index Demo.esp32 2 Demo.playing))) = 2
  /\ isOpen (file (self (snd (selectStream_index Demo.esp32 2 Demo.playing))))
     = false.
Proof.
  assert (Hi : CInt.int_range 2) by (vm_compute; split; discriminate).
  destruct (selectStream_index_not_found Demo.esp32 Demo.playing 2 Hi eq_refl)
    as [H1 [H2 [H3 _]]].
  split; [exact H1|]. split; [exact H2 | exact H3].
Defined.

(** X3: when the enumerator finds a path at the position and that path
    opens, [selectStream(index)] returns the file object holding the
    handle on that path, the only handle held, at the adopted
    position. *)
Theorem selectStream_index_opens (B : Build) (s : Sys) (i : Z) (p : string) :
  CInt.int_range i -> single_handle s ->
  resolve (adopted_position i s) s = Some p ->
  openable (card (world s)) p = true ->
  fst (selectStream_index B i s) = addr_file
  /\ idx_pos (self (snd (selectStream_index B i s))) = adopted_position i s
  /\ opened (file (self (snd (selectStream_index B i s)))) = Some p
  /\ handles (world (snd (selectStream_index B i s))) = 1%nat.
Proof.
  intros Hi Hs Hres Hopen.
  split; [|split; [apply (selectStream_index_pos B s i Hi)|]];
    rewrite (selectStream_index_adopted B s i Hi), Hres.
  - now rewrite selectStream_path_open_succeeds.
  - rewrite selectStream_path_open_succeeds by exact Hopen. simpl.
    split; [reflexivity|].
    match goal with
    | |- context [file_close ?t] =>
        assert (Ht : single_handle t) by exact Hs;
        destruct (file_close_single_handle t Ht) as [H0 _]; now rewrite H0
    end.
Qed.

Lemma selectStream_index_opens_witness :
  opened (file (self (snd (selectStream_index Demo.esp32 1 Demo.playing))))
  = Some "/c.mp3"
  /\ handles (world (snd (selectStream_index Demo.esp32 1 Demo.playing)))
     = 1%nat.
Proof.
  assert (Hi : CInt.int_range 1) by (vm_compute; split; discriminate).
  destruct (selectStream_index_opens Demo.esp32 Demo.playing 1 "/c.mp3"
              Hi eq_refl eq_refl eq_refl) as [_ [_ [H1 H2]]].
  split; [exact H1 | exact H2].
Defined.

(** ** The position under relative navigation *)

Lemma to_int_range (z : Z) : CInt.int_range (CInt.to_int z).
Proof.
  unfold CInt.int_range, CInt.to_int, CInt.INT_MIN, CInt.INT_MAX.
  assert (H : 0 <= (z + CInt.half) mod CInt.modulus < CInt.modulus)
    by (apply Z.mod_pos_bound; reflexivity).
  change CInt.modulus with (2 * CInt.half) in *. lia.
Qed.

Lemma to_int_size_plus_int_any (a b : Z) :
  CInt.to_int (CInt.size_plus_int a b) = CInt.to_int (a + b).
Proof.
  unfold CInt.to_int, CInt.size_plus_int, CInt.to_size_t. f_equal.
  rewrite Zplus_mod_idemp_l.
  replace (a + b mod CInt.modulus + CInt.half)
    with (b mod CInt.modulus + (a + CInt.half)) by ring.
  rewrite Zplus_mod_idemp_l. f_equal. ring.
Qed.

Lemma to_int_above (z : Z) :
  CInt.INT_MAX < z < CInt.modulus -> CInt.to_int z = z - CInt.modulus.
Proof.
  unfold CInt.to_int, CInt.INT_MAX. intros H.
  change CInt.modulus with (2 * CInt.half) in *.
  replace (z + CInt.half) with ((z - CInt.half) + 1 * (2 * CInt.half)) by ring.
  rewrite Z_mod_plus_full. rewrite Z.mod_small by lia. ring.
Qed.

Lemma nextStream_pos (B : Build) (s : Sys) (offset : Z) :
  pos_ok s -> CInt.int_range offset ->
  idx_pos (self (snd (nextStream B offset s)))
  = stepped_position (idx_pos (self s)) offset.
Proof.
  unfold pos_ok, stepped_position. intros Hp Ho.
  rewrite nextStream_unfold.
  rewrite selectStream_index_pos by apply to_int_range.
  unfold adopted_position. simpl. rewrite to_int_size_plus_int_any.
  unfold CInt.int_range, CInt.INT_MIN in Ho.
  assert (Hh : CInt.half = 2147483648) by reflexivity.
  assert (Hm : CInt.modulus = 4294967296) by reflexivity.
  assert (Hx : CInt.INT_MAX = 2147483647) by reflexivity.
  destruct (Z_le_gt_dec (idx_pos (self s) + offset) CInt.INT_MAX) as [Hle|Hgt].
  - rewrite to_int_id
      by (unfold CInt.int_range, CInt.INT_MIN; lia).
    destruct (Z_le_gt_dec 0 (idx_pos (self s) + offset)) as [H0|H0].
    + replace (idx_pos (self s) + offset >? -1) with true
        by (symmetry; rewrite Z.gtb_ltb; apply Z.ltb_lt; lia).
      replace (0 <=? idx_pos (self s) + offset) with true
        by (symmetry; apply Z.leb_le; lia).
      replace (idx_pos (self s) + offset <=? CInt.INT_MAX) with true
        by (symmetry; apply Z.leb_le; lia).
      reflexivity.
    + replace (idx_pos (self s) + offset >? -1) with false
        by (symmetry; rewrite Z.gtb_ltb; apply Z.ltb_ge; lia).
      replace (0 <=? idx_pos (self s) + offset) with false
        by (symmetry; apply Z.leb_gt; lia).
      reflexivity.
  - rewrite to_int_above by lia.
    replace (idx_pos (self s) + offset - CInt.modulus >? -1) with false
      by (symmetry; rewrite Z.gtb_ltb; apply Z.ltb_ge; lia).
    replace (idx_pos (self s) + offset <=? CInt.INT_MAX) with false
      by (symmetry; apply Z.leb_gt; lia).
    now rewrite andb_false_r.
Qed.

Lemma nextStream_pos_moves (B : Build) (s : Sys) (offset : Z) :
  pos_ok s -> CInt.int_range offset ->
  0 <= idx_pos (self s) + offset <= CInt.INT_MAX ->
  idx_pos (self (snd (nextStream B offset s))) = idx_pos (self s) + offset.
Proof.
  intros Hp Ho Hsum. rewrite (nextStream_pos B s offset Hp Ho).
  unfold stepped_position.
  replace (0 <=? idx_pos (self s) + offset) with true
    by (symmetry; apply Z.leb_le; lia).
  replace (idx_pos (self s) + offset <=? CInt.INT_MAX) with true
    by (symmetry; apply Z.leb_le; lia).
  reflexivity.
Qed.

Lemma stepped_position_ok (pos offset : Z) :
  0 <= pos <= CInt.INT_MAX -> 0 <= stepped_position pos offset <= CInt.INT_MAX.
Proof.
  intros Hp. unfold stepped_position.
  destruct (0 <=? pos + offset) eqn:E0;
    destruct (pos + offset <=? CInt.INT_MAX) eqn:E1; simpl;
    try apply Z.leb_le in E0; try apply Z.leb_le in E1; lia.
Qed.

(** X4: from a position in the range of an [int], [nextStream(offset)]
    moves to [idx_pos + offset] when that sum lies between 0 and
    [INT_MAX], and keeps the position otherwise: a sum below 0 is caught
    by the guard on negative indexes, and a sum above [INT_MAX] wraps to
    a negative [int] and is caught by the same guard.  The new position
    is again in the range of an [int]. *)
Theorem nextStream_position (B : Build) (s : Sys) (offset : Z) :
  pos_ok s -> CInt.int_range offset ->
  idx_pos (self (snd (nextStream B offset s)))
  = stepped_position (idx_pos (self s)) offset
  /\ (0 <= idx_pos (self s) + offset <= CInt.INT_MAX ->
      idx_pos (self (snd (nextStream B offset s)))
      = idx_pos (self s) + offset)
  /\ (idx_pos (self s) + offset < 0
      \/ CInt.INT_MAX < idx_pos (self s) + offset ->
      idx_pos (self (snd (nextStream B offset s))) = idx_pos (self s))
  /\ pos_ok (snd (nextStream B offset s)).
Proof.
  intros Hp Ho. pose proof (nextStream_pos B s offset Hp Ho) as E.
  split; [exact E|]. unfold pos_ok in *. rewrite E. unfold stepped_position.
  destruct (0 <=? idx_pos (self s) + offset) eqn:E0;
    destruct (idx_pos (self s) + offset <=? CInt.INT_MAX) eqn:E1; simpl;
    try apply Z.leb_le in E0; try apply Z.leb_le in E1;
    try apply Z.leb_gt in E0; try apply Z.leb_gt in E1;
    repeat split; intros; lia.
Qed.

Lemma nextStream_position_witness :
  idx_pos (self (snd (nextStream Demo.esp32 1 Demo.started))) = 1
  /\ idx_pos (self (snd (nextStream Demo.esp32 (-5) Demo.started))) = 0.
Proof.
  assert (Hp : pos_ok Demo.started) by (vm_compute; split; discriminate).
  split.
  - apply (nextStream_position Demo.esp32 Demo.started 1 Hp);
      [vm_compute; split; discriminate | vm_compute; split; discriminate].
  - apply (nextStream_position Demo.esp32 Demo.started (-5) Hp);
      [vm_compute; split; discriminate | left; vm_compute; reflexivity].
Defined.

(** what a selection returns and leaves in the file object depends on
    the path and on the card only *)
Lemma selectStream_path_result (B : Build) (path : cstr) (s1 s2 : Sys) :
  card (world s1) = card (world s2) ->
  fst (selectStream_path B path s1) = fst (selectStream_path B path s2)
  /\ file (self (snd (selectStream_path B path s1)))
     = file (self (snd (selectStream_path B path s2))).
Proof.
  intros Hc. destruct path as [p|].
  - destruct (openable (card (world s1)) p) eqn:E1.
    + assert (E2 : openable (card (world s2)) p = true) by now rewrite <- Hc.
      rewrite (selectStream_path_open_succeeds B s1 p E1).
      rewrite (selectStream_path_open_succeeds B s2 p E2). split; reflexivity.
    + assert (E2 : openable (card (world s2)) p = false) by now rewrite <- Hc.
      rewrite (selectStream_path_open_fails B s1 p E1).
      rewrite (selectStream_path_open_fails B s2 p E2). simpl.
      rewrite !file_close_frame. split; reflexivity.
  - rewrite !selectStream_path_null. simpl.
    rewrite !file_close_frame. split; reflexivity.
Qed.

Lemma nextStream_frame (B : Build) (offset : Z) (s : Sys) :
  idx (self (snd (nextStream B offset s))) = idx (self s)
  /\ card (world (snd (nextStream B offset s))) = card (world s).
Proof.
  rewrite nextStream_unfold, selectStream_index_unfold.
  match goal with
  | |- context [selectStream_path B ?p ?t] =>
      destruct (selectStream_path_frame B p t) as [Hc [_ Hk]]
  end.
  unfold same_configuration in Hc.
  repeat match goal with H : _ /\ _ |- _ => destruct H end.
  split.
  - match goal with H : idx _ = idx _ |- _ => rewrite <- H end.
    destruct (_ >? -1); reflexivity.
  - rewrite Hk. destruct (_ >? -1); reflexivity.
Qed.

(** X5: going forth by [offset] and back by [-offset] restores the
    position, when the step forth stays between 0 and [INT_MAX]; the
    step back returns the stream, and leaves the file object, that
    selecting the original position directly gives. *)
Theorem nextStream_forth_and_back (B : Build) (s : Sys) (offset : Z) :
  pos_ok s -> 0 <= idx_pos (self s) + offset <= CInt.INT_MAX ->
  idx_pos (self (snd (nextStream B (- offset)
                        (snd (nextStream B offset s))))) = idx_pos (self s)
  /\ fst (nextStream B (- offset) (snd (nextStream B offset s)))
     = fst (selectStream_index B (idx_pos (self s)) s)
  /\ file (self (snd (nextStream B (- offset)
                        (snd (nextStream B offset s)))))
     = file (self (snd (selectStream_index B (idx_pos (self s)) s))).
Proof.
  intros Hp Hsum.
  assert (Hx : CInt.INT_MAX = 2147483647) by reflexivity.
  assert (Ho : CInt.int_range offset)
    by (unfold pos_ok in Hp; unfold CInt.int_range, CInt.INT_MIN, CInt.half;
        simpl; lia).
  assert (Ho' : CInt.int_range (- offset))
    by (unfold pos_ok in Hp; unfold CInt.int_range, CInt.INT_MIN, CInt.half;
        simpl; lia).
  pose proof (nextStream_pos_moves B s offset Hp Ho Hsum) as H1.
  assert (Hp1 : pos_ok (snd (nextStream B offset s)))
    by (unfold pos_ok; rewrite H1; exact Hsum).
  destruct (nextStream_frame B offset s) as [Hidx Hcard].
  set (s1 := snd (nextStream B offset s)) in *.
  assert (Hback : 0 <= idx_pos (self s1) + - offset <= CInt.INT_MAX)
    by (unfold pos_ok in Hp; rewrite H1; lia).
  split.
  - rewrite (nextStream_pos_moves B s1 (- offset) Hp1 Ho' Hback), H1. ring.
  - assert (Hk : CInt.to_int (CInt.size_plus_int (idx_pos (self s1)) (- offset))
                 = idx_pos (self s)).
    { rewrite to_int_size_plus_int_any, H1.
      replace (idx_pos (self s) + offset + - offset) with (idx_pos (self s))
        by ring.
      apply to_int_id. unfold pos_ok in Hp.
      unfold CInt.int_range, CInt.INT_MIN, CInt.half. simpl. lia. }
    rewrite nextStream_unfold, Hk.
    assert (Hi : CInt.int_range (idx_pos (self s)))
      by (unfold pos_ok in Hp;
          unfold CInt.int_range, CInt.INT_MIN, CInt.half; simpl; lia).
    rewrite !(selectStream_index_adopted B _ _ Hi).
    assert (Hr : resolve
                   (adopted_position (idx_pos (self s))
                      (LOGI "nextStream: %d" [ArgInt (- offset)] s1))
                   (LOGI "nextStream: %d" [ArgInt (- offset)] s1)
                 = resolve (adopted_position (idx_pos (self s)) s) s).
    { unfold resolve, adopted_position. simpl. rewrite Hidx, Hcard.
      destruct (idx_pos (self s) >? -1) eqn:E; [reflexivity|].
      unfold pos_ok in Hp. rewrite Z.gtb_ltb in E. apply Z.ltb_ge in E. lia. }
    rewrite Hr. apply selectStream_path_result. simpl. exact Hcard.
Qed.

Lemma nextStream_forth_and_back_witness :
  idx_pos (self (snd (nextStream Demo.esp32 (- (1))
                        (snd (nextStream Demo.esp32 1 Demo.started))))) = 0
  /\ opened (file (self (snd (nextStream Demo.esp32 (- (1))
                                (snd (nextStream Demo.esp32 1 Demo.started))))))
     = Some "/a.mp3".
Proof.
  assert (Hp : pos_ok Demo.started) by (vm_compute; split; discriminate).
  assert (Hs : 0 <= idx_pos (self Demo.started) + 1 <= CInt.INT_MAX)
    by (vm_compute; split; discriminate).
  destruct (nextStream_forth_and_back Demo.esp32 Demo.started 1 Hp Hs)
    as [H1 _].
  split; [exact H1 | reflexivity].
Defined.

(** ** The position along a run *)

Lemma begin_idx_pos (s s' : Sys) :
  begin s = Some s' ->
  idx_pos (self s') = 0 \/ idx_pos (self s') = idx_pos (self s).
Proof.
  unfold begin, sd_begin. simpl.
  destruct (is_sd_setup (self s)); simpl.
  - intros H. injection H as <-. now left.
  - destruct (p_cfg (self s)) as [cfg|]; [|discriminate].
    destruct (mountable (card (world s)) cfg); simpl;
      intros H; injection H as <-; [now left | now right].
Qed.

Lemma end_idx_pos (B : Build) (s : Sys) :
  idx_pos (self (end_ B s)) = idx_pos (self s).
Proof.
  unfold end_. destruct (is_sd_setup (self s)); [|reflexivity].
  simpl. destruct (ESP32 B); [destruct (is_close_sd (self s))|]; reflexivity.
Qed.

Lemma exec_pos_ok (B : Build) (c : Call) (s s' : Sys) :
  exec B c s = Some s' -> int_args c -> pos_ok s -> pos_ok s'.
Proof.
  assert (Hx : CInt.INT_MAX = 2147483647) by reflexivity.
  destruct c; simpl; intros H Ha Hp; [ | injection H as <- .. ].
  - unfold pos_ok in *. destruct (begin_idx_pos s s' H) as [E|E]; rewrite E; lia.
  - unfold pos_ok in *. now rewrite end_idx_pos.
  - unfold pos_ok. rewrite (nextStream_pos B s offset Hp Ha).
    now apply stepped_position_ok.
  - unfold pos_ok in *. rewrite (selectStream_index_pos B s i Ha).
    unfold adopted_position. destruct (i >? -1) eqn:E; [|exact Hp].
    rewrite Z.gtb_ltb in E. apply Z.ltb_lt in E.
    unfold CInt.int_range in Ha. lia.
  - unfold pos_ok in *.
    destruct (selectStream_path_frame B path s) as [_ [E _]]. now rewrite E.
  - exact Hp.
  - exact Hp.
  - exact Hp.
Qed.

(** X6: along every run of calls with [int] arguments, started from a
    position in the range of an [int] (every constructor starts at 0),
    the position stays between 0 and [INT_MAX]; [index()] is therefore
    the stored position and never negative. *)
Theorem index_never_negative (B : Build) (calls : list Call) :
  forall s s' : Sys,
    pos_ok s -> Forall int_args calls -> run B calls s = Some s' ->
    pos_ok s' /\ index s' = idx_pos (self s') /\ 0 <= index s'.
Proof.
  induction calls as [|c rest IH]; intros s s' Hp Ha Hrun; simpl in Hrun.
  - injection Hrun as <-. split; [exact Hp|].
    assert (E : index s = idx_pos (self s)).
    { unfold index. apply to_int_id. unfold pos_ok in Hp.
      unfold CInt.int_range, CInt.INT_MIN, CInt.half. simpl. lia. }
    split; [exact E|]. rewrite E. unfold pos_ok in Hp. lia.
  - destruct (exec B c s) as [m|] eqn:E; [|discriminate].
    inversion Ha as [|c' rest' Hc Hrest]; subst.
    apply (IH m s'); [|exact Hrest|exact Hrun].
    exact (exec_pos_ok B c s m E Hc Hp).
Qed.

Lemma index_never_negative_witness :
  exists s',
    run Demo.esp32
      [CallBegin; CallNextStream (-3); CallSelectIndex 7; CallNextStream 2;
       CallEnd] Demo.constructed = Some s'
    /\ index s' = 9.
Proof.
  eexists. split; [reflexivity|].
  assert (Hp : pos_ok Demo.constructed) by (vm_compute; split; discriminate).
  assert (Ha : Forall int_args
                 [CallBegin; CallNextStream (-3); CallSelectIndex 7;
                  CallNextStream 2; CallEnd]).
  { repeat constructor; vm_compute; discriminate. }
  destruct (index_never_negative Demo.esp32 _ Demo.constructed _ Hp Ha eq_refl)
    as [_ [H _]].
  rewrite H. reflexivity.
Defined.

(** ** Selecting the same path again *)

(** X7: selecting a path a second time, with the card as it is, changes
    nothing but the trace: the same stream is returned, and the object,
    the card and the handles held are those left by the first call. *)
Theorem selectStream_path_twice (B : Build) (path : cstr) (s : Sys) :
  single_handle s ->
  fst (selectStream_path B path (snd (selectStream_path B path s)))
  = fst (selectStream_path B path s)
  /\ same_but_trace
       (snd (selectStream_path B path (snd (selectStream_path B path s))))
       (snd (selectStream_path B path s)).
Proof.
  intros Hs. unfold same_but_trace.
  pose proof (selectStream_path_single_handle B s path Hs) as Hs1.
  destruct (selectStream_path_frame B path s) as [_ [_ Hcard]].
  destruct (selectStream_path_frame B path
              (snd (selectStream_path B path s))) as [_ [_ Hcard1]].
  split; [|split; [|split]].
  - apply selectStream_path_result. exact Hcard.
  - rewrite (selectStream_path_self B path (snd (selectStream_path B path s))).
    rewrite Hcard. rewrite (selectStream_path_self B path s).
    destruct path as [p|]; simpl; [|reflexivity].
    now rewrite strncpy_overwrites.
  - exact Hcard1.
  - rewrite (selectStream_path_handles B path _ Hs1), Hcard.
    now rewrite (selectStream_path_handles B path s Hs).
Qed.

Lemma selectStream_path_twice_witness :
  same_but_trace
    (snd (selectStream_path Demo.esp32 (Some "/c.mp3")
            (snd (selectStream_path Demo.esp32 (Some "/c.mp3") Demo.playing))))
    (snd (selectStream_path Demo.esp32 (Some "/c.mp3") Demo.playing)).
Proof.
  apply (selectStream_path_twice Demo.esp32 (Some "/c.mp3") Demo.playing).
  reflexivity.
Defined.

(** ** Tear down, again *)

(** X8: [end()] is idempotent: a second [end()] changes nothing, not
    even the trace, and the destructor of a session that was ended makes
    no call of [sd.end()]. *)
Theorem end_twice (B : Build) (s : Sys) :
  end_ B (end_ B s) = end_ B s
  /\ exists evs,
      trace (dtor B (end_ B s)) = trace (world (end_ B s)) ++ evs
      /\ existsb is_sd_end_event evs = false.
Proof.
  destruct (end_effect B s) as [_ [_ [Hflag _]]].
  assert (E : end_ B (end_ B s) = end_ B s).
  { unfold end_ at 1. now rewrite Hflag. }
  split; [exact E|]. unfold dtor. rewrite E.
  destruct (owns_cfg (self (end_ B s))); simpl.
  - exists [EvDeleteCfg]. split; reflexivity.
  - exists []. now rewrite app_nil_r.
Qed.

(** X9: a session constructed on an open file system cannot be begun
    again once it was ended: it has no configuration ([p_cfg] is null),
    and [begin()] finding the mount flag cleared dereferences it. *)
Theorem guest_begin_after_end (B : Build) (raw : list ascii) (fs : AudioFs)
    (startFilePath ext : cstr) (setupIndex : bool) (w : World)
    (calls : list Call) (s' : Sys) :
  run B calls (ctor_fs raw fs startFilePath ext setupIndex w) = Some s' ->
  p_cfg (self s') = None
  /\ begin (end_ B s') = None
  /\ (is_sd_setup (self s') = false -> begin s' = None).
Proof.
  intros Hrun.
  pose proof (run_guest B fs w calls _ s' Hrun
                (ctor_fs_guest raw fs startFilePath ext setupIndex w)) as Hg.
  destruct Hg as [_ [Hp _]].
  assert (G : forall t, p_cfg (self t) = None -> is_sd_setup (self t) = false ->
                        begin t = None).
  { intros t Hpt Hst. unfold begin. simpl. rewrite Hst, Hpt. reflexivity. }
  split; [exact Hp|]. split.
  - destruct (end_effect B s') as [_ [Hp' [Hflag _]]].
    apply G; [now rewrite Hp' | exact Hflag].
  - intros Hst. now apply G.
Qed.

Lemma guest_begin_after_end_witness :
  begin (end_ Demo.esp32 Demo.guest_playing) = None.
Proof.
  destruct (guest_begin_after_end Demo.esp32 Demo.raw
              {| mounted := true |} (Some "/") (Some ".mp3") true
              (fresh_world Demo.sd_card)
              [CallBegin; CallSelectPath (Some "/a.mp3")]
              Demo.guest_playing eq_refl) as [_ [H _]].
  exact H.
Defined.

(** ** The configuration object *)

Lemma begin_members (s s' : Sys) :
  begin s = Some s' ->
  owns_cfg (self s') = owns_cfg (self s)
  /\ file_name (self s') = file_name (self s).
Proof.
  unfold begin, sd_begin. simpl.
  destruct (is_sd_setup (self s)); simpl.
  - intros H. injection H as <-. split; reflexivity.
  - destruct (p_cfg (self s)) as [cfg|]; [|discriminate].
    destruct (mountable (card (world s)) cfg); simpl;
      intros H; injection H as <-; split; reflexivity.
Qed.

Lemma end_members (B : Build) (s : Sys) :
  owns_cfg (self (end_ B s)) = owns_cfg (self s)
  /\ file_name (self (end_ B s)) = file_name (self s).
Proof.
  unfold end_. destruct (is_sd_setup (self s)); [|split; reflexivity].
  simpl. destruct (ESP32 B); [destruct (is_close_sd (self s))|];
    split; reflexivity.
Qed.

Lemma exec_owns_cfg (B : Build) (c : Call) (s s' : Sys) :
  exec B c s = Some s' -> owns_cfg (self s') = owns_cfg (self s).
Proof.
  destruct c; simpl; intros H; [ | injection H as <- .. ].
  - now destruct (begin_members s s' H).
  - now destruct (end_members B s).
  - destruct (nextStream_effect B offset s) as [Hc _].
    unfold same_configuration in Hc. symmetry. tauto.
  - destruct (selectStream_index_effect B i s) as [Hc _].
    unfold same_configuration in Hc. symmetry. tauto.
  - destruct (selectStream_path_frame B path s) as [Hc _].
    unfold same_configuration in Hc. symmetry. tauto.
  - reflexivity.
  - reflexivity.
  - reflexivity.
Qed.

Lemma run_owns_cfg (B : Build) (calls : list Call) :
  forall s s', run B calls s = Some s' ->
               owns_cfg (self s') = owns_cfg (self s).
Proof.
  induction calls as [|c rest IH]; intros s s' H; simpl in H.
  - now injection H as <-.
  - destruct (exec B c s) as [m|] eqn:E; [|discriminate].
    rewrite (IH m s' H). exact (exec_owns_cfg B c s m E).
Qed.

(** X10: the destructor frees the configuration object exactly when the
    session allocated it: after any run, the destructor of a session of
    the first constructor ends with the [delete], and those of the
    sessions given a configuration or a file system never free
    anything. *)
Theorem dtor_deletes_own_cfg (B : Build) (calls : list Call) (s0 t : Sys) :
  run B calls s0 = Some t ->
  trace (dtor B t)
  = trace (world (end_ B t))
      ++ (if owns_cfg (self s0) then [EvDeleteCfg] else [])
  /\ (forall raw sp ext cs mhz mode si w,
         owns_cfg (self (ctor B raw sp ext cs mhz mode si w)) = true)
  /\ (forall raw sp ext config si w,
         owns_cfg (self (ctor_cfg raw sp ext config si w)) = false)
  /\ (forall raw fs sp ext si w,
         owns_cfg (self (ctor_fs raw fs sp ext si w)) = false).
Proof.
  intros Hrun. split; [|repeat split].
  unfold dtor. destruct (end_members B t) as [Ho _].
  rewrite Ho, (run_owns_cfg B calls s0 t Hrun).
  destruct (owns_cfg (self s0)); simpl; [reflexivity|].
  now rewrite app_nil_r.
Qed.

Lemma dtor_deletes_own_cfg_witness :
  trace (dtor Demo.esp32 Demo.playing)
  = trace (world (end_ Demo.esp32 Demo.playing)) ++ [EvDeleteCfg]
  /\ trace (dtor Demo.esp32 Demo.guest_playing)
     = trace (world (end_ Demo.esp32 Demo.guest_playing)) ++ [].
Proof.
  split.
  - apply (dtor_deletes_own_cfg Demo.esp32
             [CallBegin; CallSelectPath (Some "/a.mp3")]
             Demo.constructed Demo.playing eq_refl).
  - apply (dtor_deletes_own_cfg Demo.esp32
             [CallBegin; CallSelectPath (Some "/a.mp3")]
             Demo.guest Demo.guest_playing eq_refl).
Defined.

(** ** Mounting again *)

(** X11: a [begin()] that failed to mount can be tried again: it leaves
    the mount flag clear, and a later [begin()], on a card that mounts,
    calls [sd.begin] again with the same configuration, sets the flag,
    configures the enumerator and resets the position. *)
Theorem begin_retry (s : Sys) (cfg : SdSpiConfig) (c' : Card) :
  is_sd_setup (self s) = false -> p_cfg (self s) = Some cfg ->
  mountable (card (world s)) cfg = false -> mountable c' cfg = true ->
  exists s1 s2,
    begin s = Some s1
    /\ begin (change_card c' s1) = Some s2
    /\ is_sd_setup (self s1) = false
    /\ is_sd_setup (self s2) = true
    /\ mounted (sd (self s2)) = true
    /\ idx_pos (self s2) = 0
    /\ extends s1 s2
         [EvTrace LvlDebug; EvSdBegin cfg true;
          EvIdxBegin (start_path (self s)) (exension (self s))
            (file_name_pattern (self s))].
Proof.
  intros Hs Hp Hm Hm'.
  assert (E1 : exists s1, begin s = Some s1
                          /\ is_sd_setup (self s1) = false
                          /\ p_cfg (self s1) = Some cfg
                          /\ start_path (self s1) = start_path (self s)
                          /\ exension (self s1) = exension (self s)
                          /\ file_name_pattern (self s1)
                             = file_name_pattern (self s)).
  { unfold begin, sd_begin. simpl. rewrite Hs, Hp. simpl. rewrite Hm. simpl.
    eexists. split; [reflexivity|]. simpl. auto. }
  destruct E1 as [s1 [Hb1 [Hs1 [Hp1 [Hsp [Hex Hfp]]]]]].
  exists s1. unfold begin at 2, sd_begin. simpl.
  rewrite Hs1, Hp1. simpl. rewrite Hm'. simpl.
  eexists. split; [exact Hb1|]. split; [reflexivity|]. simpl.
  unfold extends. simpl. rewrite Hsp, Hex, Hfp, <- !app_assoc. auto.
Qed.

Lemma begin_retry_witness :
  exists s1 s2,
    begin Demo.constructed_no_card = Some s1
    /\ begin (change_card Demo.sd_card s1) = Some s2
    /\ is_sd_setup (self s2) = true.
Proof.
  destruct (begin_retry Demo.constructed_no_card
              (mkSdSpiConfig 13 1 10000000) Demo.sd_card
              eq_refl eq_refl eq_refl eq_refl)
    as [s1 [s2 [H1 [H2 [_ [H3 _]]]]]].
  exists s1, s2. auto.
Defined.

(** ** The stored file name *)

Lemma exec_quiet_file_name (B : Build) (c : Call) (s s' : Sys) :
  exec B c s = Some s' -> is_quiet c = true ->
  file_name (self s') = file_name (self s).
Proof.
  destruct c; simpl; intros H Hq; try discriminate;
    [ | injection H as <- .. ].
  - now destruct (begin_members s s' H).
  - now destruct (end_members B s).
  - destruct path as [p|]; [discriminate|].
    now rewrite selectStream_path_self.
  - reflexivity.
  - reflexivity.
  - reflexivity.
Qed.

(** X12: nothing initialises the stored file name: each constructor
    leaves in the array what it finds there, and so does every run of
    [begin()], [end()], the setters and selections of a null path; until
    a path is selected [toStr()] reads that indeterminate content. *)
Theorem file_name_not_initialised (B : Build) (calls : list Call) :
  forall s s' : Sys,
    forallb is_quiet calls = true -> run B calls s = Some s' ->
    (file_name (self s') = file_name (self s) /\ toStr s' = toStr s)
    /\ (forall raw sp ext cs mhz mode si w,
           file_name (self (ctor B raw sp ext cs mhz mode si w)) = raw)
    /\ (forall raw sp ext config si w,
           file_name (self (ctor_cfg raw sp ext config si w)) = raw)
    /\ (forall raw fs sp ext si w,
           file_name (self (ctor_fs raw fs sp ext si w)) = raw).
Proof.
  intros s s' Hq Hrun. split; [|repeat split].
  assert (E : file_name (self s') = file_name (self s)).
  { revert s Hq Hrun. induction calls as [|c rest IH]; intros s Hq Hrun;
      simpl in *.
    - now injection Hrun as <-.
    - apply andb_true_iff in Hq. destruct Hq as [Hc Hrest].
      destruct (exec B c s) as [m|] eqn:Em; [|discriminate].
      rewrite (IH m Hrest Hrun). exact (exec_quiet_file_name B c s m Em Hc). }
  split; [exact E|]. unfold toStr. now rewrite E.
Qed.

Lemma file_name_not_initialised_witness :
  exists s',
    run Demo.esp32 [CallBegin; CallSelectPath None; CallSetPath (Some "/music");
                    CallEnd] Demo.constructed = Some s'
    /\ file_name (self s') = Demo.raw /\ toStr s' = None.
Proof.
  eexists. split; [reflexivity|].
  destruct (file_name_not_initialised Demo.esp32
              [CallBegin; CallSelectPath None; CallSetPath (Some "/music");
               CallEnd] Demo.constructed _ eq_refl eq_refl)
    as [[H1 H2] _].
  split; [exact H1 | exact H2].
Defined.

(** X13: a path of [MAX_FILE_LEN] characters or more fills the name
    array without a terminating NUL: the array keeps its length, holds
    the first [MAX_FILE_LEN] characters of the path, and [toStr()] has
    no terminator to stop at inside the array. *)
Theorem selectStream_path_long_name (B : Build) (s : Sys) (p : string) :
  List.length (file_name (self s)) = MAX_FILE_LEN B ->
  no_nul p = true -> (MAX_FILE_LEN B <= String.length p)%nat ->
  file_name (self (snd (selectStream_path B (Some p) s)))
  = strncpy_cells p (MAX_FILE_LEN B)
  /\ List.length (file_name (self (snd (selectStream_path B (Some p) s))))
     = MAX_FILE_LEN B
  /\ toStr (snd (selectStream_path B (Some p) s)) = None.
Proof.
  intros Hlen Hnul Hp.
  assert (E : file_name (self (snd (selectStream_path B (Some p) s)))
              = strncpy_cells p (MAX_FILE_LEN B)).
  { rewrite selectStream_path_name. unfold strncpy.
    rewrite skipn_all2 by lia. apply app_nil_r. }
  split; [exact E|]. split.
  - rewrite E. apply strncpy_cells_length.
  - unfold toStr. rewrite E. now apply c_str_unterminated.
Qed.

Lemma selectStream_path_long_name_witness :
  toStr (snd (selectStream_path
                {| ESP32 := true; MAX_FILE_LEN := 4; PIN_CS := 13;
                   DEDICATED_SPI := 1; SD_SCK_MHZ := fun mhz => mhz |}
                (Some "/a.mp3")
                (ctor_cfg ["x"; "x"; "x"; "x"]%char (Some "/") (Some ".mp3")
                   (mkSdSpiConfig 13 1 10) true (fresh_world Demo.sd_card))))
  = None.
Proof.
  apply selectStream_path_long_name;
    [reflexivity | reflexivity | vm_compute; lia].
Defined.

(** ** Builds without [ESP32] *)

Lemma exec_trace (B : Build) (c : Call) (s s' : Sys) :
  exec B c s = Some s' ->
  exists evs, extends s s' evs
              /\ (existsb is_sd_end_event evs = true -> ESP32 B = true).
Proof.
  destruct c; simpl; intros H; [ | injection H as <- .. ].
  - destruct (begin_effect s s' H) as [_ [_ [_ [_ [_ [evs [He [Hn _]]]]]]]].
    exists evs. split; [exact He|]. rewrite Hn. discriminate.
  - destruct (end_extends B s) as [evs [He [_ [_ Hn]]]].
    exists evs. split; [exact He|]. intros Hev. now destruct (Hn Hev).
  - destruct (nextStream_effect B offset s) as [_ [evs [He Hn]]].
    exists evs. split; [exact He|]. rewrite Hn. discriminate.
  - destruct (selectStream_index_effect B i s) as [_ [evs [He Hn]]].
    exists evs. split; [exact He|]. rewrite Hn. discriminate.
  - destruct (selectStream_path_effect B path s) as [evs [He Hn]].
    exists evs. split; [exact He|]. rewrite Hn. discriminate.
  - exists []. unfold extends. simpl. rewrite app_nil_r.
    split; [reflexivity | discriminate].
  - exists []. unfold extends. simpl. rewrite app_nil_r.
    split; [reflexivity | discriminate].
  - exists []. unfold extends. simpl. rewrite app_nil_r.
    split; [reflexivity | discriminate].
Qed.

(** X14: in a build without [ESP32] the storage is never unmounted: no
    run of calls contains a call of [sd.end()], [end()] leaves the
    volume object as it is and only clears the mount flag, and the
    destructor adds no such call either. *)
Theorem no_unmount_without_esp32 (B : Build) (calls : list Call) :
  forall s s' : Sys,
    ESP32 B = false -> run B calls s = Some s' ->
    (exists evs, extends s s' evs /\ existsb is_sd_end_event evs = false)
    /\ sd (self (end_ B s')) = sd (self s')
    /\ is_sd_setup (self (end_ B s')) = false
    /\ (exists evs, trace (dtor B s') = trace (world s') ++ evs
                    /\ existsb is_sd_end_event evs = false).
Proof.
  intros s s' He Hrun.
  assert (Hend : forall t, exists evs,
               extends t (end_ B t) evs /\ existsb is_sd_end_event evs = false).
  { intros t. destruct (end_extends B t) as [evs [Hx [_ [_ Hn]]]].
    exists evs. split; [exact Hx|].
    destruct (existsb is_sd_end_event evs); [|reflexivity].
    destruct (Hn eq_refl) as [He' _]. congruence. }
  split; [|split; [|split]].
  - revert s Hrun. induction calls as [|c rest IH]; intros s Hrun;
      simpl in Hrun.
    + injection Hrun as <-. exists []. unfold extends.
      now rewrite app_nil_r.
    + destruct (exec B c s) as [m|] eqn:Em; [|discriminate].
      destruct (exec_trace B c s m Em) as [e1 [H1 Hn1]].
      destruct (IH m Hrun) as [e2 [H2 Hn2]].
      exists (e1 ++ e2). split.
      * unfold extends in *. now rewrite H2, H1, app_assoc.
      * rewrite existsb_app, Hn2, orb_false_r.
        destruct (existsb is_sd_end_event e1); [|reflexivity].
        specialize (Hn1 eq_refl). congruence.
  - unfold end_. destruct (is_sd_setup (self s')); [|reflexivity].
    simpl. rewrite He. reflexivity.
  - now destruct (end_effect B s') as [_ [_ [H _]]].
  - destruct (Hend s') as [evs [Hx Hn]]. unfold dtor, extends in *.
    destruct (owns_cfg (self (end_ B s'))); simpl.
    + exists (evs ++ [EvDeleteCfg]). split.
      * now rewrite Hx, app_assoc.
      * rewrite existsb_app, Hn. reflexivity.
    + exists evs. split; [exact Hx | exact Hn].
Qed.

Lemma no_unmount_without_esp32_witness :
  exists s',
    run Demo.desktop [CallBegin; CallNextStream 1; CallEnd]
      (ctor_default Demo.desktop Demo.raw (fresh_world Demo.sd_card))
    = Some s'
    /\ sd (self s') = {| mounted := true |}
    /\ is_sd_setup (self s') = false.
Proof.
  eexists. split; [reflexivity|].
  destruct (no_unmount_without_esp32 Demo.desktop
              [CallBegin; CallNextStream 1]
              (ctor_default Demo.desktop Demo.raw (fresh_world Demo.sd_card))
              _ eq_refl eq_refl) as [_ [H1 [H2 _]]].
  split; [exact H1 | exact H2].
Defined.

(** ** The setters *)

(** X15: [setPath] and [setFileFilter] only store their argument: the
    enumerator keeps the filter it has, so a selection by position after
    them returns the stream and leaves the file object it would have
    without them; the new root and pattern reach the enumerator at the
    next [begin()]. *)
Theorem setters_take_effect_at_begin (B : Build) (s : Sys) (p f : cstr)
    (i : Z) :
  idx (self (setFileFilter f (setPath p s))) = idx (self s)
  /\ fst (selectStream_index B i (setFileFilter f (setPath p s)))
     = fst (selectStream_index B i s)
  /\ file (self (snd (selectStream_index B i (setFileFilter f (setPath p s)))))
     = file (self (snd (selectStream_index B i s)))
  /\ idx_pos (self (snd (selectStream_index B i
                           (setFileFilter f (setPath p s)))))
     = idx_pos (self (snd (selectStream_index B i s)))
  /\ (is_sd_setup (self s) = true ->
      exists s',
        begin (setFileFilter f (setPath p s)) = Some s'
        /\ idx (self s') = mkSDDirect true p (exension (self s)) f
        /\ extends (setFileFilter f (setPath p s)) s'
             [EvTrace LvlDebug; EvIdxBegin p (exension (self s)) f]).
Proof.
  split; [reflexivity|].
  assert (R : fst (selectStream_index B i (setFileFilter f (setPath p s)))
              = fst (selectStream_index B i s)
              /\ file (self (snd (selectStream_index B i
                                    (setFileFilter f (setPath p s)))))
                 = file (self (snd (selectStream_index B i s)))).
  { rewrite !selectStream_index_unfold. simpl.
    apply selectStream_path_result. destruct (i >? -1); reflexivity. }
  split; [apply R|]. split; [apply R|]. split.
  - rewrite !selectStream_index_unfold.
    repeat match goal with
    | |- context [idx_pos (self (snd (selectStream_path B ?q ?t)))] =>
        let H := fresh in
        destruct (selectStream_path_frame B q t) as [_ [H _]]; rewrite H;
        clear H
    end.
    destruct (i >? -1); reflexivity.
  - intros Hs. unfold begin. simpl. rewrite Hs. simpl.
    eexists. split; [reflexivity|]. simpl. split; [reflexivity|].
    unfold extends. simpl. rewrite <- !app_assoc. reflexivity.
Qed.

Lemma setters_take_effect_at_begin_witness :
  exists s',
    begin (setFileFilter (Some "*Dylan*") (setPath (Some "/music") Demo.playing))
    = Some s'
    /\ idx (self s')
       = mkSDDirect true (Some "/music") (Some ".mp3") (Some "*Dylan*").
Proof.
  destruct (setters_take_effect_at_begin Demo.esp32 Demo.playing
              (Some "/music") (Some "*Dylan*") 0) as [_ [_ [_ [_ H]]]].
  destruct (H eq_refl) as [s' [H1 [H2 _]]].
  exists s'. split; [exact H1 | exact H2].
Defined.

(** ** What navigation leaves alone *)

(** X16: stream selections never touch the mount: along every run of
    [nextStream] and [selectStream] calls (the card may change under
    them), which always runs to its end, the configuration pointer, the
    volume object, the enumerator and its filter settings, and the
    ownership and mount flags stay what they were. *)
Theorem navigation_keeps_configuration (B : Build) (calls : list Call) :
  forall s : Sys,
    forallb is_navigation calls = true ->
    exists s', run B calls s = Some s'
               /\ same_configuration (self s) (self s').
Proof.
  induction calls as [|c rest IH]; intros s Hnav; simpl in *.
  - exists s. split; [reflexivity|]. unfold same_configuration. tauto.
  - apply andb_true_iff in Hnav. destruct Hnav as [Hc Hrest].
    assert (Hstep : exists m, exec B c s = Some m
                              /\ same_configuration (self s) (self m)).
    { destruct c; simpl in Hc; try discriminate; simpl;
        eexists; (split; [reflexivity|]).
      - apply nextStream_effect.
      - apply selectStream_index_effect.
      - apply selectStream_path_frame.
      - unfold same_configuration. simpl. tauto. }
    destruct Hstep as [m [Em Hm]]. rewrite Em.
    destruct (IH m Hrest) as [s' [Hrun Hs']].
    exists s'. split; [exact Hrun|].
    exact (same_configuration_trans _ _ _ Hm Hs').
Qed.

Lemma navigation_keeps_configuration_witness :
  exists s',
    run Demo.esp32
      [CallNextStream 1; CardChanged Demo.no_card; CallSelectIndex 0;
       CallSelectPath (Some "/a.mp3")] Demo.playing = Some s'
    /\ is_sd_setup (self s') = true /\ sd (self s') = {| mounted := true |}.
Proof.
  destruct (navigation_keeps_configuration Demo.esp32
              [CallNextStream 1; CardChanged Demo.no_card; CallSelectIndex 0;
               CallSelectPath (Some "/a.mp3")] Demo.playing eq_refl)
    as [s' [Hrun Hc]].
  exists s'. split; [exact Hrun|].
  unfold same_configuration in Hc.
  repeat match goal with H : _ /\ _ |- _ => destruct H end.
  split.
  - match goal with H : is_sd_setup _ = is_sd_setup _ |- _ => rewrite <- H end.
    reflexivity.
  - match goal with H : sd _ = sd _ |- _ => rewrite <- H end. reflexivity.
Defined.
